(** * The object browser store (web/satellite, [useObjectBrowserStore])

    A shallow embedding of the Pinia store that presents a folder/file view
    over a flat, versioned S3 bucket: listing, version grouping, uploads with
    their serialized completion chain, and deletion.

    Conventions.
    - JavaScript strings are modelled by [string]; [length] and [slice] count
      characters (the keys used here are ASCII).
    - A [Date] is a heap object: [===] compares identity, [<] and [getTime]
      compare the time value.
    - [Array.prototype.sort] is whatever a conforming engine makes of it
      ([Js.Engine]): fixed on consistent comparators, free otherwise.
    - Every [await]ed transport call is answered by an oracle ([Env]) that
      sees the log of the calls made so far, so any backend behaviour,
      including failures, is covered by quantifying over oracles.
    - An operation runs to completion once called.  Where the source runs
      promises side by side ([Promise.all], the three delete threads) the
      model takes them one after the other and lets each run to its end.
    - The upload chain is the exception: its links are separate events
      ([step]), interleaved with the operations and with each other as the
      promise chain allows. *)

From Stdlib Require Import ZArith String Ascii Permutation Sorted.
From stdpp Require Import gmap strings list sorting pretty.

Local Open Scope Z_scope.

(** ** JavaScript library functions used by the store *)

Module Js.

(** [s.slice(n)] *)
Fixpoint slice_from (n : nat) (s : string) : string :=
  match n, s with
  | O, _ => s
  | S k, String _ s' => slice_from k s'
  | S _, EmptyString => EmptyString
  end.

Fixpoint take (n : nat) (s : string) : string :=
  match n, s with
  | S k, String c s' => String c (take k s')
  | _, _ => EmptyString
  end.

(** [s.slice(n, -1)] *)
Definition slice_to_last (n : nat) (s : string) : string :=
  take (String.length s - 1 - n) (slice_from n s).

(** [s.includes(sub)] *)
Fixpoint includes (sub s : string) : bool :=
  String.prefix sub s ||
  match s with
  | EmptyString => false
  | String _ s' => includes sub s'
  end.

(** [s.split(sep)] for a non-empty separator.  [skip] counts the characters
    of a matched separator still to be dropped, [cur] is the piece being
    built. *)
Fixpoint split_aux (sep : string) (skip : nat) (cur s : string) : list string :=
  match s with
  | EmptyString => [cur]
  | String c s' =>
      match skip with
      | S k => split_aux sep k cur s'
      | O =>
        if String.prefix sep s
        then cur :: split_aux sep (String.length sep - 1) EmptyString s'
        else split_aux sep O (cur +:+ String c EmptyString) s'
      end
  end.

Definition split (sep s : string) : list string := split_aux sep O EmptyString s.

(** [parts.join(sep)] *)
Fixpoint join (sep : string) (parts : list string) : string :=
  match parts with
  | [] => EmptyString
  | [p] => p
  | p :: rest => p +:+ sep +:+ join sep rest
  end.

(** [arr.includes(x)] on an array of strings *)
Definition arr_includes (x : string) (arr : list string) : bool :=
  existsb (String.eqb x) arr.

(** [arr.findIndex(p)] *)
Fixpoint findIndex {A} (p : A -> bool) (l : list A) : option nat :=
  match l with
  | [] => None
  | x :: r => if p x then Some O else option_map S (findIndex p r)
  end.

(** [arr.splice(i, 1)] *)
Fixpoint splice1 {A} (i : nat) (l : list A) : list A :=
  match i, l with
  | _, [] => []
  | O, _ :: r => r
  | S k, x :: r => x :: splice1 k r
  end.

(** *** [Array.prototype.sort]

    ECMAScript fixes the result of [sort] only for a consistent comparator:
    the sort is then stable.  For any other comparator the order is
    implementation-defined.  An [Engine] is therefore any sort that
    permutes its input and agrees with the stable insertion sort [isort]
    on consistent comparators. *)

Section Sorting.
Context {A : Type}.
Variable cmp : A -> A -> Z.

(** Insertion into the already sorted prefix, kept reversed: the head of
    [racc] is the rightmost element.  The item moves left past every
    element it compares below. *)
Fixpoint insert_lt (x : A) (racc : list A) : list A :=
  match racc with
  | [] => [x]
  | y :: r => if cmp x y <? 0 then y :: insert_lt x r else x :: racc
  end.

Definition isort (l : list A) : list A :=
  rev (fold_left (fun racc x => insert_lt x racc) l []).

(** The same loop written with the test [cmp(swap, item) <= 0] as its
    exit condition. *)
Fixpoint insert_le (x : A) (racc : list A) : list A :=
  match racc with
  | [] => [x]
  | y :: r => if cmp y x <=? 0 then x :: racc else y :: insert_le x r
  end.

Definition isort_le (l : list A) : list A :=
  rev (fold_left (fun racc x => insert_le x racc) l []).

(** Consistent comparator on the elements of [l] (ECMA-262,
    Array.prototype.sort). *)
Definition consistent (l : list A) : Prop :=
  (forall a, In a l -> cmp a a = 0) /\
  (forall a b, In a l -> In b l -> cmp a b = 0 -> cmp b a = 0) /\
  (forall a b c, In a l -> In b l -> In c l ->
                 cmp a b = 0 -> cmp b c = 0 -> cmp a c = 0) /\
  (forall a b c, In a l -> In b l -> In c l ->
                 cmp a b < 0 -> cmp b c < 0 -> cmp a c < 0) /\
  (forall a b c, In a l -> In b l -> In c l ->
                 cmp a b > 0 -> cmp b c > 0 -> cmp a c > 0).
End Sorting.

Record Engine : Type := {
  sort : forall A : Type, (A -> A -> Z) -> list A -> list A;
  sort_perm : forall A cmp l, Permutation (sort A cmp l) l;
  sort_consistent : forall A cmp l, consistent cmp l -> sort A cmp l = isort cmp l
}.

End Js.

(** ** Data model *)

(** A JavaScript [Date]: a heap object holding a time value (ms). *)
Record Date : Type := { date_ref : positive; getTime : Z }.

(** [a === b] on two [Date] objects: same object. *)
Definition Date_same (a b : Date) : bool := Pos.eqb (date_ref a) (date_ref b).

(** [a < b] on two [Date] objects: comparison of the time values. *)
Definition Date_lt (a b : Date) : bool := getTime a <? getTime b.

(** ['file' | 'folder'] *)
Inductive FileType : Type := type_file | type_folder.

Definition FileType_eqb (a b : FileType) : bool :=
  match a, b with
  | type_file, type_file | type_folder, type_folder => true
  | _, _ => false
  end.

(** [BrowserObject].  [Size] and [LastModified] are required by the type
    but are spread from backend objects in which they are optional, so they
    are options here.  [upload] is a reference to the [Upload] object
    created by [enqueueUpload] (the index of its chain link). *)
Module BrowserObject.

#[local] Unset Elimination Schemes.

Inductive t : Type := mk {
  Key : string;
  VersionId : option string;
  Size : option Z;
  LastModified : option Date;
  type : option FileType;
  isDeleteMarker : option bool;
  isLatest : option bool;
  progress : option Z;
  upload : option nat;
  path : option string;
  Versions : option (list t)
}.

#[local] Set Elimination Schemes.

End BrowserObject.

Import BrowserObject.

Abbreviation BrowserObject := BrowserObject.t.

Inductive FailedUploadMessage : Type := Failed_msg | TooBig.

Definition FailedUploadMessage_text (m : FailedUploadMessage) : string :=
  match m with
  | Failed_msg => "Upload failed"
  | TooBig => "File is too big"
  end.

Inductive UploadingStatus : Type := InProgress | Finished | Failed | Cancelled.

Definition UploadingStatus_eqb (a b : UploadingStatus) : bool :=
  match a, b with
  | InProgress, InProgress | Finished, Finished
  | Failed, Failed | Cancelled, Cancelled => true
  | _, _ => false
  end.

Record File : Type := { file_name : string; file_size : Z }.

(** [UploadingBrowserObject = BrowserObject & { status, Bucket, Body, failedMessage? }] *)
Record UploadingBrowserObject : Type := {
  base : BrowserObject;
  status : UploadingStatus;
  Bucket : string;
  Body : File;
  failedMessage : option FailedUploadMessage
}.

Record PreviewCache : Type := { url : string; lastModified : Z }.

Definition MAX_KEY_COUNT : Z := 500.

Module ObjectBrowserCursor.
Record t : Type := { page : Z; limit : Z }.
End ObjectBrowserCursor.

Abbreviation ObjectBrowserCursor := ObjectBrowserCursor.t.

Record ObjectRange : Type := { range_start : Z; range_end : Z }.

Inductive OrderBy : Type := asc | desc.

Record S3ClientConfig : Type := {
  accessKeyId : string;
  secretAccessKey : string;
  endpoint : string
}.

(** [FilesState], the reactive state of the store.  [s3] holds the client
    configuration when the client is initialised.  [uploading] lists
    references into the heap of upload entries ([World.heap]): the entries
    are objects shared with the closures of [enqueueUpload].  [uploadChain]
    refers to the promise of a chain link, or is [None] for the resolved
    promise [Promise.resolve()]. *)
Module FilesState.

Record t : Type := mk {
  s3 : option S3ClientConfig;
  accessKey : option string;
  path : string;
  bucket : string;
  browserRoot : string;
  files : list BrowserObject;
  cursor : ObjectBrowserCursor;
  continuationTokens : gmap Z string;
  totalObjectCount : Z;
  activeObjectsRange : ObjectRange;
  uploadChain : option nat;
  uploading : list nat;
  selectedFiles : list BrowserObject;
  filesToBeDeleted : gset string;
  openedDropdown : option string;
  headingSorted : string;
  orderBy : OrderBy;
  openModalOnFirstUpload : bool;
  objectPathForModal : string;
  cachedObjectPreviewURLs : gmap string PreviewCache;
  showObjectVersions : bool;
  versionsExpandedKeys : list string;
  objectCountOfSelectedBucket : Z
}.

Definition set_s3 (v : option S3ClientConfig) (st : t) : t :=
  {|
     s3 := v; accessKey := accessKey st; path := path st; bucket := bucket
     st; browserRoot := browserRoot st; files := files st; cursor :=
     cursor st; continuationTokens := continuationTokens st;
     totalObjectCount := totalObjectCount st; activeObjectsRange :=
     activeObjectsRange st; uploadChain := uploadChain st; uploading :=
     uploading st; selectedFiles := selectedFiles st; filesToBeDeleted :=
     filesToBeDeleted st; openedDropdown := openedDropdown st;
     headingSorted := headingSorted st; orderBy := orderBy st;
     openModalOnFirstUpload := openModalOnFirstUpload st;
     objectPathForModal := objectPathForModal st; cachedObjectPreviewURLs
     := cachedObjectPreviewURLs st; showObjectVersions :=
     showObjectVersions st; versionsExpandedKeys := versionsExpandedKeys
     st; objectCountOfSelectedBucket := objectCountOfSelectedBucket st |}.

Definition set_accessKey (v : option string) (st : t) : t :=
  {|
     s3 := s3 st; accessKey := v; path := path st; bucket := bucket st;
     browserRoot := browserRoot st; files := files st; cursor := cursor
     st; continuationTokens := continuationTokens st; totalObjectCount :=
     totalObjectCount st; activeObjectsRange := activeObjectsRange st;
     uploadChain := uploadChain st; uploading := uploading st;
     selectedFiles := selectedFiles st; filesToBeDeleted :=
     filesToBeDeleted st; openedDropdown := openedDropdown st;
     headingSorted := headingSorted st; orderBy := orderBy st;
     openModalOnFirstUpload := openModalOnFirstUpload st;
     objectPathForModal := objectPathForModal st; cachedObjectPreviewURLs
     := cachedObjectPreviewURLs st; showObjectVersions :=
     showObjectVersions st; versionsExpandedKeys := versionsExpandedKeys
     st; objectCountOfSelectedBucket := objectCountOfSelectedBucket st |}.

Definition set_path (v : string) (st : t) : t :=
  {|
     s3 := s3 st; accessKey := accessKey st; path := v; bucket := bucket
     st; browserRoot := browserRoot st; files := files st; cursor :=
     cursor st; continuationTokens := continuationTokens st;
     totalObjectCount := totalObjectCount st; activeObjectsRange :=
     activeObjectsRange st; uploadChain := uploadChain st; uploading :=
     uploading st; selectedFiles := selectedFiles st; filesToBeDeleted :=
     filesToBeDeleted st; openedDropdown := openedDropdown st;
     headingSorted := headingSorted st; orderBy := orderBy st;
     openModalOnFirstUpload := openModalOnFirstUpload st;
     objectPathForModal := objectPathForModal st; cachedObjectPreviewURLs
     := cachedObjectPreviewURLs st; showObjectVersions :=
     showObjectVersions st; versionsExpandedKeys := versionsExpandedKeys
     st; objectCountOfSelectedBucket := objectCountOfSelectedBucket st |}.

Definition set_bucket (v : string) (st : t) : t :=
  {|
     s3 := s3 st; accessKey := accessKey st; path := path st; bucket := v;
     browserRoot := browserRoot st; files := files st; cursor := cursor
     st; continuationTokens := continuationTokens st; totalObjectCount :=
     totalObjectCount st; activeObjectsRange := activeObjectsRange st;
     uploadChain := uploadChain st; uploading := uploading st;
     selectedFiles := selectedFiles st; filesToBeDeleted :=
     filesToBeDeleted st; openedDropdown := openedDropdown st;
     headingSorted := headingSorted st; orderBy := orderBy st;
     openModalOnFirstUpload := openModalOnFirstUpload st;
     objectPathForModal := objectPathForModal st; cachedObjectPreviewURLs
     := cachedObjectPreviewURLs st; showObjectVersions :=
     showObjectVersions st; versionsExpandedKeys := versionsExpandedKeys
     st; objectCountOfSelectedBucket := objectCountOfSelectedBucket st |}.

Definition set_browserRoot (v : string) (st : t) : t :=
  {|
     s3 := s3 st; accessKey := accessKey st; path := path st; bucket :=
     bucket st; browserRoot := v; files := files st; cursor := cursor st;
     continuationTokens := continuationTokens st; totalObjectCount :=
     totalObjectCount st; activeObjectsRange := activeObjectsRange st;
     uploadChain := uploadChain st; uploading := uploading st;
     selectedFiles := selectedFiles st; filesToBeDeleted :=
     filesToBeDeleted st; openedDropdown := openedDropdown st;
     headingSorted := headingSorted st; orderBy := orderBy st;
     openModalOnFirstUpload := openModalOnFirstUpload st;
     objectPathForModal := objectPathForModal st; cachedObjectPreviewURLs
     := cachedObjectPreviewURLs st; showObjectVersions :=
     showObjectVersions st; versionsExpandedKeys := versionsExpandedKeys
     st; objectCountOfSelectedBucket := objectCountOfSelectedBucket st |}.

Definition set_files (v : list BrowserObject) (st : t) : t :=
  {|
     s3 := s3 st; accessKey := accessKey st; path := path st; bucket :=
     bucket st; browserRoot := browserRoot st; files := v; cursor :=
     cursor st; continuationTokens := continuationTokens st;
     totalObjectCount := totalObjectCount st; activeObjectsRange :=
     activeObjectsRange st; uploadChain := uploadChain st; uploading :=
     uploading st; selectedFiles := selectedFiles st; filesToBeDeleted :=
     filesToBeDeleted st; openedDropdown := openedDropdown st;
     headingSorted := headingSorted st; orderBy := orderBy st;
     openModalOnFirstUpload := openModalOnFirstUpload st;
     objectPathForModal := objectPathForModal st; cachedObjectPreviewURLs
     := cachedObjectPreviewURLs st; showObjectVersions :=
     showObjectVersions st; versionsExpandedKeys := versionsExpandedKeys
     st; objectCountOfSelectedBucket := objectCountOfSelectedBucket st |}.

Definition set_cursor (v : ObjectBrowserCursor) (st : t) : t :=
  {|
     s3 := s3 st; accessKey := accessKey st; path := path st; bucket :=
     bucket st; browserRoot := browserRoot st; files := files st; cursor
     := v; continuationTokens := continuationTokens st; totalObjectCount
     := totalObjectCount st; activeObjectsRange := activeObjectsRange st;
     uploadChain := uploadChain st; uploading := uploading st;
     selectedFiles := selectedFiles st; filesToBeDeleted :=
     filesToBeDeleted st; openedDropdown := openedDropdown st;
     headingSorted := headingSorted st; orderBy := orderBy st;
     openModalOnFirstUpload := openModalOnFirstUpload st;
     objectPathForModal := objectPathForModal st; cachedObjectPreviewURLs
     := cachedObjectPreviewURLs st; showObjectVersions :=
     showObjectVersions st; versionsExpandedKeys := versionsExpandedKeys
     st; objectCountOfSelectedBucket := objectCountOfSelectedBucket st |}.

Definition set_continuationTokens (v : gmap Z string) (st : t) : t :=
  {|
     s3 := s3 st; accessKey := accessKey st; path := path st; bucket :=
     bucket st; browserRoot := browserRoot st; files := files st; cursor
     := cursor st; continuationTokens := v; totalObjectCount :=
     totalObjectCount st; activeObjectsRange := activeObjectsRange st;
     uploadChain := uploadChain st; uploading := uploading st;
     selectedFiles := selectedFiles st; filesToBeDeleted :=
     filesToBeDeleted st; openedDropdown := openedDropdown st;
     headingSorted := headingSorted st; orderBy := orderBy st;
     openModalOnFirstUpload := openModalOnFirstUpload st;
     objectPathForModal := objectPathForModal st; cachedObjectPreviewURLs
     := cachedObjectPreviewURLs st; showObjectVersions :=
     showObjectVersions st; versionsExpandedKeys := versionsExpandedKeys
     st; objectCountOfSelectedBucket := objectCountOfSelectedBucket st |}.

Definition set_totalObjectCount (v : Z) (st : t) : t :=
  {|
     s3 := s3 st; accessKey := accessKey st; path := path st; bucket :=
     bucket st; browserRoot := browserRoot st; files := files st; cursor
     := cursor st; continuationTokens := continuationTokens st;
     totalObjectCount := v; activeObjectsRange := activeObjectsRange st;
     uploadChain := uploadChain st; uploading := uploading st;
     selectedFiles := selectedFiles st; filesToBeDeleted :=
     filesToBeDeleted st; openedDropdown := openedDropdown st;
     headingSorted := headingSorted st; orderBy := orderBy st;
     openModalOnFirstUpload := openModalOnFirstUpload st;
     objectPathForModal := objectPathForModal st; cachedObjectPreviewURLs
     := cachedObjectPreviewURLs st; showObjectVersions :=
     showObjectVersions st; versionsExpandedKeys := versionsExpandedKeys
     st; objectCountOfSelectedBucket := objectCountOfSelectedBucket st |}.

Definition set_activeObjectsRange (v : ObjectRange) (st : t) : t :=
  {|
     s3 := s3 st; accessKey := accessKey st; path := path st; bucket :=
     bucket st; browserRoot := browserRoot st; files := files st; cursor
     := cursor st; continuationTokens := continuationTokens st;
     totalObjectCount := totalObjectCount st; activeObjectsRange := v;
     uploadChain := uploadChain st; uploading := uploading st;
     selectedFiles := selectedFiles st; filesToBeDeleted :=
     filesToBeDeleted st; openedDropdown := openedDropdown st;
     headingSorted := headingSorted st; orderBy := orderBy st;
     openModalOnFirstUpload := openModalOnFirstUpload st;
     objectPathForModal := objectPathForModal st; cachedObjectPreviewURLs
     := cachedObjectPreviewURLs st; showObjectVersions :=
     showObjectVersions st; versionsExpandedKeys := versionsExpandedKeys
     st; objectCountOfSelectedBucket := objectCountOfSelectedBucket st |}.

Definition set_uploadChain (v : option nat) (st : t) : t :=
  {|
     s3 := s3 st; accessKey := accessKey st; path := path st; bucket :=
     bucket st; browserRoot := browserRoot st; files := files st; cursor
     := cursor st; continuationTokens := continuationTokens st;
     totalObjectCount := totalObjectCount st; activeObjectsRange :=
     activeObjectsRange st; uploadChain := v; uploading := uploading st;
     selectedFiles := selectedFiles st; filesToBeDeleted :=
     filesToBeDeleted st; openedDropdown := openedDropdown st;
     headingSorted := headingSorted st; orderBy := orderBy st;
     openModalOnFirstUpload := openModalOnFirstUpload st;
     objectPathForModal := objectPathForModal st; cachedObjectPreviewURLs
     := cachedObjectPreviewURLs st; showObjectVersions :=
     showObjectVersions st; versionsExpandedKeys := versionsExpandedKeys
     st; objectCountOfSelectedBucket := objectCountOfSelectedBucket st |}.

Definition set_uploading (v : list nat) (st : t) : t :=
  {|
     s3 := s3 st; accessKey := accessKey st; path := path st; bucket :=
     bucket st; browserRoot := browserRoot st; files := files st; cursor
     := cursor st; continuationTokens := continuationTokens st;
     totalObjectCount := totalObjectCount st; activeObjectsRange :=
     activeObjectsRange st; uploadChain := uploadChain st; uploading := v;
     selectedFiles := selectedFiles st; filesToBeDeleted :=
     filesToBeDeleted st; openedDropdown := openedDropdown st;
     headingSorted := headingSorted st; orderBy := orderBy st;
     openModalOnFirstUpload := openModalOnFirstUpload st;
     objectPathForModal := objectPathForModal st; cachedObjectPreviewURLs
     := cachedObjectPreviewURLs st; showObjectVersions :=
     showObjectVersions st; versionsExpandedKeys := versionsExpandedKeys
     st; objectCountOfSelectedBucket := objectCountOfSelectedBucket st |}.

Definition set_selectedFiles (v : list BrowserObject) (st : t) : t :=
  {|
     s3 := s3 st; accessKey := accessKey st; path := path st; bucket :=
     bucket st; browserRoot := browserRoot st; files := files st; cursor
     := cursor st; continuationTokens := continuationTokens st;
     totalObjectCount := totalObjectCount st; activeObjectsRange :=
     activeObjectsRange st; uploadChain := uploadChain st; uploading :=
     uploading st; selectedFiles := v; filesToBeDeleted :=
     filesToBeDeleted st; openedDropdown := openedDropdown st;
     headingSorted := headingSorted st; orderBy := orderBy st;
     openModalOnFirstUpload := openModalOnFirstUpload st;
     objectPathForModal := objectPathForModal st; cachedObjectPreviewURLs
     := cachedObjectPreviewURLs st; showObjectVersions :=
     showObjectVersions st; versionsExpandedKeys := versionsExpandedKeys
     st; objectCountOfSelectedBucket := objectCountOfSelectedBucket st |}.

Definition set_filesToBeDeleted (v : gset string) (st : t) : t :=
  {|
     s3 := s3 st; accessKey := accessKey st; path := path st; bucket :=
     bucket st; browserRoot := browserRoot st; files := files st; cursor
     := cursor st; continuationTokens := continuationTokens st;
     totalObjectCount := totalObjectCount st; activeObjectsRange :=
     activeObjectsRange st; uploadChain := uploadChain st; uploading :=
     uploading st; selectedFiles := selectedFiles st; filesToBeDeleted :=
     v; openedDropdown := openedDropdown st; headingSorted :=
     headingSorted st; orderBy := orderBy st; openModalOnFirstUpload :=
     openModalOnFirstUpload st; objectPathForModal := objectPathForModal
     st; cachedObjectPreviewURLs := cachedObjectPreviewURLs st;
     showObjectVersions := showObjectVersions st; versionsExpandedKeys :=
     versionsExpandedKeys st; objectCountOfSelectedBucket :=
     objectCountOfSelectedBucket st |}.

Definition set_openedDropdown (v : option string) (st : t) : t :=
  {|
     s3 := s3 st; accessKey := accessKey st; path := path st; bucket :=
     bucket st; browserRoot := browserRoot st; files := files st; cursor
     := cursor st; continuationTokens := continuationTokens st;
     totalObjectCount := totalObjectCount st; activeObjectsRange :=
     activeObjectsRange st; uploadChain := uploadChain st; uploading :=
     uploading st; selectedFiles := selectedFiles st; filesToBeDeleted :=
     filesToBeDeleted st; openedDropdown := v; headingSorted :=
     headingSorted st; orderBy := orderBy st; openModalOnFirstUpload :=
     openModalOnFirstUpload st; objectPathForModal := objectPathForModal
     st; cachedObjectPreviewURLs := cachedObjectPreviewURLs st;
     showObjectVersions := showObjectVersions st; versionsExpandedKeys :=
     versionsExpandedKeys st; objectCountOfSelectedBucket :=
     objectCountOfSelectedBucket st |}.

Definition set_headingSorted (v : string) (st : t) : t :=
  {|
     s3 := s3 st; accessKey := accessKey st; path := path st; bucket :=
     bucket st; browserRoot := browserRoot st; files := files st; cursor
     := cursor st; continuationTokens := continuationTokens st;
     totalObjectCount := totalObjectCount st; activeObjectsRange :=
     activeObjectsRange st; uploadChain := uploadChain st; uploading :=
     uploading st; selectedFiles := selectedFiles st; filesToBeDeleted :=
     filesToBeDeleted st; openedDropdown := openedDropdown st;
     headingSorted := v; orderBy := orderBy st; openModalOnFirstUpload :=
     openModalOnFirstUpload st; objectPathForModal := objectPathForModal
     st; cachedObjectPreviewURLs := cachedObjectPreviewURLs st;
     showObjectVersions := showObjectVersions st; versionsExpandedKeys :=
     versionsExpandedKeys st; objectCountOfSelectedBucket :=
     objectCountOfSelectedBucket st |}.

Definition set_orderBy (v : OrderBy) (st : t) : t :=
  {|
     s3 := s3 st; accessKey := accessKey st; path := path st; bucket :=
     bucket st; browserRoot := browserRoot st; files := files st; cursor
     := cursor st; continuationTokens := continuationTokens st;
     totalObjectCount := totalObjectCount st; activeObjectsRange :=
     activeObjectsRange st; uploadChain := uploadChain st; uploading :=
     uploading st; selectedFiles := selectedFiles st; filesToBeDeleted :=
     filesToBeDeleted st; openedDropdown := openedDropdown st;
     headingSorted := headingSorted st; orderBy := v;
     openModalOnFirstUpload := openModalOnFirstUpload st;
     objectPathForModal := objectPathForModal st; cachedObjectPreviewURLs
     := cachedObjectPreviewURLs st; showObjectVersions :=
     showObjectVersions st; versionsExpandedKeys := versionsExpandedKeys
     st; objectCountOfSelectedBucket := objectCountOfSelectedBucket st |}.

Definition set_openModalOnFirstUpload (v : bool) (st : t) : t :=
  {|
     s3 := s3 st; accessKey := accessKey st; path := path st; bucket :=
     bucket st; browserRoot := browserRoot st; files := files st; cursor
     := cursor st; continuationTokens := continuationTokens st;
     totalObjectCount := totalObjectCount st; activeObjectsRange :=
     activeObjectsRange st; uploadChain := uploadChain st; uploading :=
     uploading st; selectedFiles := selectedFiles st; filesToBeDeleted :=
     filesToBeDeleted st; openedDropdown := openedDropdown st;
     headingSorted := headingSorted st; orderBy := orderBy st;
     openModalOnFirstUpload := v; objectPathForModal := objectPathForModal
     st; cachedObjectPreviewURLs := cachedObjectPreviewURLs st;
     showObjectVersions := showObjectVersions st; versionsExpandedKeys :=
     versionsExpandedKeys st; objectCountOfSelectedBucket :=
     objectCountOfSelectedBucket st |}.

Definition set_objectPathForModal (v : string) (st : t) : t :=
  {|
     s3 := s3 st; accessKey := accessKey st; path := path st; bucket :=
     bucket st; browserRoot := browserRoot st; files := files st; cursor
     := cursor st; continuationTokens := continuationTokens st;
     totalObjectCount := totalObjectCount st; activeObjectsRange :=
     activeObjectsRange st; uploadChain := uploadChain st; uploading :=
     uploading st; selectedFiles := selectedFiles st; filesToBeDeleted :=
     filesToBeDeleted st; openedDropdown := openedDropdown st;
     headingSorted := headingSorted st; orderBy := orderBy st;
     openModalOnFirstUpload := openModalOnFirstUpload st;
     objectPathForModal := v; cachedObjectPreviewURLs :=
     cachedObjectPreviewURLs st; showObjectVersions := showObjectVersions
     st; versionsExpandedKeys := versionsExpandedKeys st;
     objectCountOfSelectedBucket := objectCountOfSelectedBucket st |}.

Definition set_cachedObjectPreviewURLs (v : gmap string PreviewCache) (st : t) : t :=
  {|
     s3 := s3 st; accessKey := accessKey st; path := path st; bucket :=
     bucket st; browserRoot := browserRoot st; files := files st; cursor
     := cursor st; continuationTokens := continuationTokens st;
     totalObjectCount := totalObjectCount st; activeObjectsRange :=
     activeObjectsRange st; uploadChain := uploadChain st; uploading :=
     uploading st; selectedFiles := selectedFiles st; filesToBeDeleted :=
     filesToBeDeleted st; openedDropdown := openedDropdown st;
     headingSorted := headingSorted st; orderBy := orderBy st;
     openModalOnFirstUpload := openModalOnFirstUpload st;
     objectPathForModal := objectPathForModal st; cachedObjectPreviewURLs
     := v; showObjectVersions := showObjectVersions st;
     versionsExpandedKeys := versionsExpandedKeys st;
     objectCountOfSelectedBucket := objectCountOfSelectedBucket st |}.

Definition set_showObjectVersions (v : bool) (st : t) : t :=
  {|
     s3 := s3 st; accessKey := accessKey st; path := path st; bucket :=
     bucket st; browserRoot := browserRoot st; files := files st; cursor
     := cursor st; continuationTokens := continuationTokens st;
     totalObjectCount := totalObjectCount st; activeObjectsRange :=
     activeObjectsRange st; uploadChain := uploadChain st; uploading :=
     uploading st; selectedFiles := selectedFiles st; filesToBeDeleted :=
     filesToBeDeleted st; openedDropdown := openedDropdown st;
     headingSorted := headingSorted st; orderBy := orderBy st;
     openModalOnFirstUpload := openModalOnFirstUpload st;
     objectPathForModal := objectPathForModal st; cachedObjectPreviewURLs
     := cachedObjectPreviewURLs st; showObjectVersions := v;
     versionsExpandedKeys := versionsExpandedKeys st;
     objectCountOfSelectedBucket := objectCountOfSelectedBucket st |}.

Definition set_versionsExpandedKeys (v : list string) (st : t) : t :=
  {|
     s3 := s3 st; accessKey := accessKey st; path := path st; bucket :=
     bucket st; browserRoot := browserRoot st; files := files st; cursor
     := cursor st; continuationTokens := continuationTokens st;
     totalObjectCount := totalObjectCount st; activeObjectsRange :=
     activeObjectsRange st; uploadChain := uploadChain st; uploading :=
     uploading st; selectedFiles := selectedFiles st; filesToBeDeleted :=
     filesToBeDeleted st; openedDropdown := openedDropdown st;
     headingSorted := headingSorted st; orderBy := orderBy st;
     openModalOnFirstUpload := openModalOnFirstUpload st;
     objectPathForModal := objectPathForModal st; cachedObjectPreviewURLs
     := cachedObjectPreviewURLs st; showObjectVersions :=
     showObjectVersions st; versionsExpandedKeys := v;
     objectCountOfSelectedBucket := objectCountOfSelectedBucket st |}.

Definition set_objectCountOfSelectedBucket (v : Z) (st : t) : t :=
  {|
     s3 := s3 st; accessKey := accessKey st; path := path st; bucket :=
     bucket st; browserRoot := browserRoot st; files := files st; cursor
     := cursor st; continuationTokens := continuationTokens st;
     totalObjectCount := totalObjectCount st; activeObjectsRange :=
     activeObjectsRange st; uploadChain := uploadChain st; uploading :=
     uploading st; selectedFiles := selectedFiles st; filesToBeDeleted :=
     filesToBeDeleted st; openedDropdown := openedDropdown st;
     headingSorted := headingSorted st; orderBy := orderBy st;
     openModalOnFirstUpload := openModalOnFirstUpload st;
     objectPathForModal := objectPathForModal st; cachedObjectPreviewURLs
     := cachedObjectPreviewURLs st; showObjectVersions :=
     showObjectVersions st; versionsExpandedKeys := versionsExpandedKeys
     st; objectCountOfSelectedBucket := v |}.

End FilesState.

(** ** The transport (S3 client) *)

Module S3.

(** An entry of a listing response: [_Object], [ObjectVersion] or
    [DeleteMarkerEntry].  ['Size' in item] holds exactly when [Size] is
    [Some]; an [_Object] has neither [VersionId] nor [IsLatest]. *)
Record Item : Type := {
  Key : string;
  VersionId : option string;
  Size : option Z;
  LastModified : option Date;
  IsLatest : option bool
}.

Record CommonPrefix : Type := { Prefix : option string }.

(** The fields the store reads from a response; every one is optional. *)
Record Output : Type := {
  Contents : option (list Item);
  CommonPrefixes : option (list CommonPrefix);
  KeyCount : option Z;
  NextContinuationToken : option string;
  Versions : option (list Item);
  DeleteMarkers : option (list Item);
  NextKeyMarker : option string;
  NextVersionIdMarker : option string;
  IsTruncated : option bool
}.

(** The commands the store sends. *)
Inductive Command : Type :=
| ListObjectsV2Command (Bucket Delimiter Prefix : string)
    (ContinuationToken : option string) (MaxKeys : option Z)
| ListObjectVersionsCommand (Bucket Delimiter Prefix : string)
    (KeyMarker VersionIdMarker : option string) (MaxKeys : option Z)
| ListObjectsCommand (Bucket Delimiter Prefix : string)
| DeleteObjectCommand (Bucket Key : string) (VersionId : option string)
| PutObjectCommand (Bucket Key Body : string)
| CopyObjectCommand (CopySource Bucket Key MetadataDirective : string).

End S3.

(** What the store throws. *)
Inductive Exn : Type :=
| Error (name message : string)
| DuplicateUploadError (files : list string).

Definition Exn_name (e : Exn) : string :=
  match e with
  | Error n _ => n
  | DuplicateUploadError _ => "DuplicateUploadError"
  end.

Definition Exn_message (e : Exn) : string :=
  match e with
  | Error _ m => m
  | DuplicateUploadError _ => ""%string
  end.

(** The outside world during one operation: the answer of the backend to
    each command given the calls already made, the pages the paginator of
    [paginateListObjectsV2] yields, and the clock read by [new Date()]. *)
Record Env : Type := {
  send_answer : list S3.Command -> S3.Command -> Exn + S3.Output;
  paginator_pages : list S3.Command -> string -> string -> list (Exn + S3.Output);
  now : Date
}.

(** Configuration read from the config store, and [DEFAULT_PAGE_LIMIT]
    (imported from [@/types/pagination]). *)
Record Config : Type := {
  altObjBrowserPagingEnabled : bool;
  altObjBrowserPagingThreshold : Z;
  DEFAULT_PAGE_LIMIT : Z
}.

Inductive AnalyticsErrorEventSource : Type := OBJECT_UPLOAD_ERROR.

(** ** The upload chain *)

(** The phase of one link [state.uploadChain.then(async () => ...)]:
    not yet invoked, suspended at [await upload.done()] holding [item],
    suspended in the listing refresh, fulfilled, or rejected ([started]
    tells whether the callback ran at all). *)
Inductive Phase : Type :=
| Pending
| AwaitingTransfer (item : nat)
| Refreshing
| Fulfilled
| Rejected (e : Exn) (started : bool).

(** One call of [enqueueUpload] that reached the transport: the [Upload]
    object (its abort flag and progress listener) and the chain link. *)
Record Link : Type := {
  link_key : string;
  link_prev : option nat;
  link_phase : Phase;
  link_aborted : bool;
  link_listening : bool
}.

(** The store together with what it shares with its surroundings: the heap
    of upload entries, the chain links, the log of transport calls, the
    notifications raised, the uploading modal flag of the app store, the
    object count persisted in local storage and the configuration. *)
Module World.

Record t : Type := mk {
  state : FilesState.t;
  heap : list UploadingBrowserObject;
  links : list Link;
  calls : list S3.Command;
  notifications : list (string * AnalyticsErrorEventSource);
  uploadingModal : bool;
  localData : option Z;
  config : Config
}.

Definition set_state (v : FilesState.t) (w : t) : t :=
  {|
     state := v; heap := heap w; links := links w; calls := calls w;
     notifications := notifications w; uploadingModal := uploadingModal w;
     localData := localData w; config := config w |}.

Definition set_heap (v : list UploadingBrowserObject) (w : t) : t :=
  {|
     state := state w; heap := v; links := links w; calls := calls w;
     notifications := notifications w; uploadingModal := uploadingModal w;
     localData := localData w; config := config w |}.

Definition set_links (v : list Link) (w : t) : t :=
  {|
     state := state w; heap := heap w; links := v; calls := calls w;
     notifications := notifications w; uploadingModal := uploadingModal w;
     localData := localData w; config := config w |}.

Definition set_calls (v : list S3.Command) (w : t) : t :=
  {|
     state := state w; heap := heap w; links := links w; calls := v;
     notifications := notifications w; uploadingModal := uploadingModal w;
     localData := localData w; config := config w |}.

Definition set_notifications (v : list (string * AnalyticsErrorEventSource)) (w : t) : t :=
  {|
     state := state w; heap := heap w; links := links w; calls := calls w;
     notifications := v; uploadingModal := uploadingModal w; localData :=
     localData w; config := config w |}.

Definition set_uploadingModal (v : bool) (w : t) : t :=
  {|
     state := state w; heap := heap w; links := links w; calls := calls w;
     notifications := notifications w; uploadingModal := v; localData :=
     localData w; config := config w |}.

Definition set_localData (v : option Z) (w : t) : t :=
  {|
     state := state w; heap := heap w; links := links w; calls := calls w;
     notifications := notifications w; uploadingModal := uploadingModal w;
     localData := v; config := config w |}.

Definition set_config (v : Config) (w : t) : t :=
  {|
     state := state w; heap := heap w; links := links w; calls := calls w;
     notifications := notifications w; uploadingModal := uploadingModal w;
     localData := localData w; config := v |}.

End World.

(** ** The monad of store operations: state, exceptions, and a result
    for recursions that are cut short by their fuel *)

Inductive Outcome (A : Type) : Type :=
| Ok (a : A)
| Throw (e : Exn)
| OutOfFuel.

Arguments Ok {A} a.
Arguments Throw {A} e.
Arguments OutOfFuel {A}.

Definition M (A : Type) : Type := World.t -> Outcome A * World.t.

Definition ret {A} (a : A) : M A := fun w => (Ok a, w).

Definition bind {A B} (c : M A) (k : A -> M B) : M B :=
  fun w =>
    match c w with
    | (Ok a, w') => k a w'
    | (Throw e, w') => (Throw e, w')
    | (OutOfFuel, w') => (OutOfFuel, w')
    end.

Notation "x <- c ;; k" := (bind c (fun x => k))
  (at level 100, c at next level, right associativity).
Notation "c ;; k" := (bind c (fun _ => k))
  (at level 100, right associativity).

Definition throw {A} (e : Exn) : M A := fun w => (Throw e, w).

Definition get : M World.t := fun w => (Ok w, w).

Definition getState : M FilesState.t := fun w => (Ok (World.state w), w).

Definition modify (f : World.t -> World.t) : M unit := fun w => (Ok tt, f w).

Definition modifyState (f : FilesState.t -> FilesState.t) : M unit :=
  modify (fun w => World.set_state (f (World.state w)) w).

(** [try { c } catch (e) { ... }]: the exception becomes a value. *)
Definition catch {A} (c : M A) : M (Exn + A) :=
  fun w =>
    match c w with
    | (Ok a, w') => (Ok (inr a), w')
    | (Throw e, w') => (Ok (inl e), w')
    | (OutOfFuel, w') => (OutOfFuel, w')
    end.

(** Sequential [for (const x of l) await f(x)]. *)
Fixpoint forEach {A} (f : A -> M unit) (l : list A) : M unit :=
  match l with
  | [] => ret tt
  | x :: r => f x ;; forEach f r
  end.

(** [await state.s3.send(cmd)]: the call is logged and answered by the
    environment. *)
Definition send (env : Env) (cmd : S3.Command) : M S3.Output :=
  fun w =>
    let w' := World.set_calls (World.calls w ++ [cmd]) w in
    match send_answer env (World.calls w) cmd with
    | inl e => (Throw e, w')
    | inr r => (Ok r, w')
    end.

Definition notifyError (msg : string) (src : AnalyticsErrorEventSource) : M unit :=
  modify (fun w => World.set_notifications (World.notifications w ++ [(msg, src)]) w).

(** A JavaScript string used as a condition. *)
Definition truthy (s : option string) : option string :=
  match s with
  | Some EmptyString => None
  | o => o
  end.

(** ** Initial state *)

(** [new FilesState()] *)
Definition FilesState_new (cfg : Config) (localCount : option Z) : FilesState.t :=
  {| FilesState.s3 := None;
     FilesState.accessKey := None;
     FilesState.path := "";
     FilesState.bucket := "";
     FilesState.browserRoot := "/";
     FilesState.files := [];
     FilesState.cursor :=
       {| ObjectBrowserCursor.limit := DEFAULT_PAGE_LIMIT cfg;
          ObjectBrowserCursor.page := 1 |};
     FilesState.continuationTokens := ∅;
     FilesState.totalObjectCount := 0;
     FilesState.activeObjectsRange := {| range_start := 1; range_end := 500 |};
     FilesState.uploadChain := None;
     FilesState.uploading := [];
     FilesState.selectedFiles := [];
     FilesState.filesToBeDeleted := ∅;
     FilesState.openedDropdown := None;
     FilesState.headingSorted := "name";
     FilesState.orderBy := asc;
     FilesState.openModalOnFirstUpload := false;
     FilesState.objectPathForModal := "";
     FilesState.cachedObjectPreviewURLs := ∅;
     FilesState.showObjectVersions := false;
     FilesState.versionsExpandedKeys := [];
     FilesState.objectCountOfSelectedBucket := default 0 localCount |}.

Definition World_new (cfg : Config) (localCount : option Z) : World.t :=
  {| World.state := FilesState_new cfg localCount;
     World.heap := [];
     World.links := [];
     World.calls := [];
     World.notifications := [];
     World.uploadingModal := false;
     World.localData := localCount;
     World.config := cfg |}.

(** ** Operations of the store *)

Section Store.

Context (E : Js.Engine).

Definition isAltPagination (w : World.t) : bool :=
  altObjBrowserPagingEnabled (World.config w) &&
  (altObjBrowserPagingThreshold (World.config w)
     <? FilesState.objectCountOfSelectedBucket (World.state w)).

Definition assertIsInitialized : M unit :=
  st <- getState ;;
  match FilesState.s3 st with
  | None => throw (Error "Error" "FilesModule: S3 Client is uninitialized. state.s3 is null.")
  | Some _ => ret tt
  end.

Definition setCursor (cursor : ObjectBrowserCursor) : M unit :=
  modifyState (FilesState.set_cursor cursor).

Definition init (accessKey secretKey bucket endpoint browserRoot : string)
    (openModalOnFirstUpload : bool) : M unit :=
  modifyState (fun st =>
    FilesState.set_files []
      (FilesState.set_path ""
        (FilesState.set_openModalOnFirstUpload openModalOnFirstUpload
          (FilesState.set_browserRoot browserRoot
            (FilesState.set_bucket bucket
              (FilesState.set_accessKey (Some accessKey)
                (FilesState.set_s3
                   (Some {| accessKeyId := accessKey;
                            secretAccessKey := secretKey;
                            endpoint := endpoint |}) st))))))).

Definition reinit (accessKey secretKey endpoint : string) : M unit :=
  modifyState (fun st =>
    FilesState.set_accessKey (Some accessKey)
      (FilesState.set_s3
         (Some {| accessKeyId := accessKey;
                  secretAccessKey := secretKey;
                  endpoint := endpoint |})
         (FilesState.set_files [] st))).

Definition updateFiles (path : string) (files : list BrowserObject) : M unit :=
  modifyState (fun st => FilesState.set_files files (FilesState.set_path path st)).

Definition updateVersionsExpandedKeys (keys : list string) : M unit :=
  modifyState (FilesState.set_versionsExpandedKeys keys).

Definition isFileVisible (file : BrowserObject) : bool :=
  (0 <? String.length (Key file))%nat &&
  negb (Js.includes ".file_placeholder" (Key file)).

Definition prefixToFolder (path : string) (now : Date) (Prefix : string) : BrowserObject :=
  {| Key := Js.slice_to_last (String.length path) Prefix;
     path := Some path;
     LastModified := Some now;
     Size := Some 0;
     type := Some type_folder;
     VersionId := None; isDeleteMarker := None; isLatest := None;
     progress := None; upload := None; Versions := None |}.

(** [{ ...file, Key: file.Key.slice(path.length), path, type: 'file' }] *)
Definition makeFileRelative (path : string) (file : S3.Item) : BrowserObject :=
  {| Key := Js.slice_from (String.length path) (S3.Key file);
     path := Some path;
     type := Some type_file;
     VersionId := S3.VersionId file;
     Size := S3.Size file;
     LastModified := S3.LastModified file;
     isDeleteMarker := None; isLatest := None;
     progress := None; upload := None; Versions := None |}.

(** [CommonPrefixes.filter(isPrefixDefined).map(prefixToFolder(path))] *)
Definition foldersOf (path : string) (now : Date) (prefixes : list S3.CommonPrefix)
    : list BrowserObject :=
  omap (fun cp => option_map (prefixToFolder path now) (S3.Prefix cp)) prefixes.

(** The comparator of [processFetchedObjects]. *)
Definition compareLastModified (a b : S3.Item) : Z :=
  match S3.LastModified a, S3.LastModified b with
  | Some da, Some db =>
      if Date_same da db then 0
      else if Date_lt da db then -1 else 1
  | _, _ => 0
  end.

Definition processFetchedObjects (now : Date) (path : string)
    (Contents : option (list S3.Item))
    (CommonPrefixes : option (list S3.CommonPrefix)) : M unit :=
  let Contents := default [] Contents in
  let CommonPrefixes := default [] CommonPrefixes in
  let Contents := Js.sort E _ compareLastModified Contents in
  let files :=
    foldersOf path now CommonPrefixes ++
    List.filter isFileVisible (map (makeFileRelative path) Contents) in
  updateFiles path files.

Definition clearTokens : M unit :=
  modifyState (FilesState.set_continuationTokens ∅).

Definition setToken (page : Z) (token : string) : M unit :=
  modifyState (fun st =>
    FilesState.set_continuationTokens
      (<[page := token]> (FilesState.continuationTokens st)) st).

Definition setCursorPage (page : Z) : M unit :=
  modifyState (fun st =>
    FilesState.set_cursor
      {| ObjectBrowserCursor.page := page;
         ObjectBrowserCursor.limit := ObjectBrowserCursor.limit (FilesState.cursor st) |} st).

(** *** Version listing *)

(** [groupedItems.get(key).push(obj)], creating the group on first use;
    groups keep their insertion order, as a [Map] does. *)
Fixpoint group_push (key : string) (obj : BrowserObject)
    (groups : list (string * list BrowserObject)) : list (string * list BrowserObject) :=
  match groups with
  | [] => [(key, [obj])]
  | (k, items) :: rest =>
      if String.eqb k key then (k, items ++ [obj]) :: rest
      else (k, items) :: group_push key obj rest
  end.

(** The [browserObject] built in the loop over [allItems], for an item that
    is visible.  The spread in [makeFileRelative] copies [IsLatest]
    unchanged, so it is read from the backend item. *)
Definition versionEntry (now : Date) (path : string) (item : S3.Item)
    : option BrowserObject :=
  let rel := makeFileRelative path item in
  if negb (isFileVisible rel) then None
  else
    let '(size, isDeleteMarker, isLatest) :=
      match Size rel with
      | Some sz => (sz, false, default false (S3.IsLatest item))
      | None => (0, true, false)
      end in
    Some
      {| Key := Key rel;
         path := Some path;
         VersionId := VersionId rel;
         Size := Some size;
         LastModified := Some (default now (LastModified rel));
         isLatest := Some isLatest;
         type := Some type_file;
         isDeleteMarker := Some isDeleteMarker;
         progress := None; BrowserObject.upload := None; Versions := None |}.

(** The body of the loop over [allItems]. *)
Definition groupItem (now : Date) (path : string)
    (groups : list (string * list BrowserObject)) (item : S3.Item)
    : list (string * list BrowserObject) :=
  match versionEntry now path item with
  | None => groups
  | Some browserObject => group_push (Key browserObject) browserObject groups
  end.

Definition groupItems (now : Date) (path : string) (allItems : list S3.Item)
    : list (string * list BrowserObject) :=
  fold_left (groupItem now path) allItems [].

(** [new Date(x.LastModified ?? 0).getTime()] *)
Definition timeOf (x : BrowserObject) : Z :=
  match LastModified x with
  | Some d => getTime d
  | None => 0
  end.

(** The comparator of the sort inside each group: most recent first. *)
Definition compareRecency (a b : BrowserObject) : Z := timeOf b - timeOf a.

(** The representative row of one group, and the key pushed for it. *)
Definition latestOf (group : string * list BrowserObject)
    : option (string * BrowserObject) :=
  let '(key, items) := group in
  let items := Js.sort E _ compareRecency items in
  match items with
  | [] => None
  | item :: _ =>
      Some (default "" (path item) +:+ Key item,
            {| Key := key;
               Size := Size item;
               path := path item;
               type := type item;
               Versions := Some items;
               LastModified := LastModified item;
               isDeleteMarker := isDeleteMarker item;
               VersionId := None; isLatest := None;
               progress := None; upload := None |})
  end.

Definition latestObjects (now : Date) (path : string) (allItems : list S3.Item)
    : list (string * BrowserObject) :=
  omap latestOf (groupItems now path allItems).

Definition listAllVersions (env : Env) (path : option string) (page : option Z)
    (saveNextToken : bool) : M unit :=
  assertIsInitialized ;;
  st <- getState ;;
  let path := default (FilesState.path st) path in
  let page := default (ObjectBrowserCursor.page (FilesState.cursor st)) page in
  let continuationToken := truthy (FilesState.continuationTokens st !! page) in
  let '(nextKey, nextVersion) :=
    match continuationToken with
    | Some tok =>
        let parts := Js.split "::" tok in
        (parts !! 0%nat, parts !! 1%nat)
    | None => (Some "", Some "")
    end in
  setCursorPage page ;;
  st <- getState ;;
  response <- send env
    (S3.ListObjectVersionsCommand (FilesState.bucket st) "/" path
       nextKey nextVersion (Some (ObjectBrowserCursor.limit (FilesState.cursor st)))) ;;
  let versions := default [] (S3.Versions response) in
  let deleteMarkers := default [] (S3.DeleteMarkers response) in
  let allItems := versions ++ deleteMarkers in
  let latest := latestObjects (now env) path allItems in
  updateVersionsExpandedKeys (map fst latest) ;;
  (if saveNextToken then
     let nextToken :=
       default "" (S3.NextKeyMarker response) +:+ "::" +:+
       default "" (S3.NextVersionIdMarker response) in
     if String.eqb nextToken "::" then ret tt
     else setToken (page + 1) nextToken
   else ret tt) ;;
  modifyState (FilesState.set_path path) ;;
  let folders := default [] (S3.CommonPrefixes response) in
  updateFiles path (foldersOf path (now env) folders ++ map snd latest).

(** *** Object listing *)

(** The loop [for await (const response of paginator)] of [initList].
    Each page pulled from the paginator is one [ListObjectsV2] call with
    the token of the page before it. *)
Fixpoint initList_pages (env : Env) (path : string)
    (pages : list (Exn + S3.Output)) (token : option string)
    (iteration keyCount : Z) : M Z :=
  match pages with
  | [] => ret keyCount
  | pg :: rest =>
      st <- getState ;;
      modify (fun w =>
        World.set_calls
          (World.calls w ++
             [S3.ListObjectsV2Command (FilesState.bucket st) "/" path token
                (Some MAX_KEY_COUNT)]) w) ;;
      match pg with
      | inl e => throw e
      | inr response =>
          (if iteration =? 1 then
             processFetchedObjects (now env) path
               (S3.Contents response) (S3.CommonPrefixes response) ;;
             modifyState (FilesState.set_activeObjectsRange
                            {| range_start := 1; range_end := MAX_KEY_COUNT |})
           else ret tt) ;;
          let keyCount := keyCount + default 0 (S3.KeyCount response) in
          match truthy (S3.NextContinuationToken response) with
          | None => ret keyCount
          | Some next =>
              setToken (MAX_KEY_COUNT * (iteration + 1)) next ;;
              initList_pages env path rest (Some next) (iteration + 1) keyCount
          end
      end
  end.

Definition initList (env : Env) (path : option string) : M unit :=
  assertIsInitialized ;;
  w <- get ;;
  let st := World.state w in
  let path := default (FilesState.path st) path in
  let paginator := paginator_pages env (World.calls w) (FilesState.bucket st) path in
  keyCount <- initList_pages env path paginator None 1 0 ;;
  let keyCount :=
    match truthy (Some path) with
    | Some _ => keyCount - 1
    | None => keyCount
    end in
  modifyState (FilesState.set_totalObjectCount keyCount).

Definition listByToken (env : Env) (path : string) (key : Z)
    (continuationToken : string) : M unit :=
  assertIsInitialized ;;
  st <- getState ;;
  response <- send env
    (S3.ListObjectsV2Command (FilesState.bucket st) "/" path
       (Some continuationToken) None) ;;
  processFetchedObjects (now env) path
    (S3.Contents response) (S3.CommonPrefixes response) ;;
  modifyState (FilesState.set_activeObjectsRange
                 {| range_start := key - MAX_KEY_COUNT; range_end := key |}).

Definition listCustom (env : Env) (path : option string) (page : Z)
    (saveNextToken : bool) : M unit :=
  assertIsInitialized ;;
  st <- getState ;;
  let path := default (FilesState.path st) path in
  let continuationToken := FilesState.continuationTokens st !! page in
  response <- send env
    (S3.ListObjectsV2Command (FilesState.bucket st) "/" path
       continuationToken (Some (ObjectBrowserCursor.limit (FilesState.cursor st)))) ;;
  processFetchedObjects (now env) path
    (S3.Contents response) (S3.CommonPrefixes response) ;;
  (match saveNextToken, truthy (S3.NextContinuationToken response) with
   | true, Some next => setToken (page + 1) next
   | _, _ => ret tt
   end) ;;
  setCursorPage page.

(** The refresh that follows an upload, a delete or a folder creation. *)
Definition refresh (env : Env) : M unit :=
  w <- get ;;
  if FilesState.showObjectVersions (World.state w) then
    clearTokens ;;
    st <- getState ;;
    listAllVersions env (Some (FilesState.path st)) (Some 1) true
  else if isAltPagination w then
    clearTokens ;;
    st <- getState ;;
    listCustom env (Some (FilesState.path st)) 1 true
  else initList env None.

(** *** Upload *)

Definition deref (w : World.t) (ref : nat) : option UploadingBrowserObject :=
  World.heap w !! ref.

(** [f.Key === key] on an entry of [state.uploading] *)
Definition hasKey (w : World.t) (key : string) (ref : nat) : bool :=
  match deref w ref with
  | Some f => String.eqb (Key (base f)) key
  | None => false
  end.

Definition hasStatus (w : World.t) (st : UploadingStatus) (ref : nat) : bool :=
  match deref w ref with
  | Some f => UploadingStatus_eqb (status f) st
  | None => false
  end.

(** Assignment to fields of a shared upload entry. *)
Definition set_status (s : UploadingStatus) (f : UploadingBrowserObject)
    : UploadingBrowserObject :=
  {| base := base f; status := s; Bucket := Bucket f; Body := Body f;
     failedMessage := failedMessage f |}.

Definition set_failedMessage (m : FailedUploadMessage) (f : UploadingBrowserObject)
    : UploadingBrowserObject :=
  {| base := base f; status := status f; Bucket := Bucket f; Body := Body f;
     failedMessage := Some m |}.

Definition set_progress (p : Z) (f : UploadingBrowserObject) : UploadingBrowserObject :=
  {| base :=
       {| Key := Key (base f); VersionId := VersionId (base f);
          Size := Size (base f); LastModified := LastModified (base f);
          type := type (base f); isDeleteMarker := isDeleteMarker (base f);
          isLatest := isLatest (base f); progress := Some p;
          upload := upload (base f); path := path (base f);
          Versions := Versions (base f) |};
     status := status f; Bucket := Bucket f; Body := Body f;
     failedMessage := failedMessage f |}.

Definition mutate (ref : nat) (f : UploadingBrowserObject -> UploadingBrowserObject)
    : M unit :=
  modify (fun w =>
    match World.heap w !! ref with
    | Some o => World.set_heap (<[ref := f o]> (World.heap w)) w
    | None => w
    end).

Definition setUploading (l : list nat) : M unit :=
  modifyState (FilesState.set_uploading l).

(** [state.uploading.push(obj)]: the object is allocated and its reference
    appended. *)
Definition pushUploading (obj : UploadingBrowserObject) : M unit :=
  modify (fun w =>
    World.set_state
      (FilesState.set_uploading
         (FilesState.uploading (World.state w) ++ [length (World.heap w)])
         (World.state w))
      (World.set_heap (World.heap w ++ [obj]) w)).

(** The state of the duplicate scan of [upload]: the accepted pairs, the
    colliding names, [traversedCount], and the number of pairs pulled from
    the traversal so far. *)
Record Scan : Type := {
  scan_files : list (string * File);
  duplicateFiles : list string;
  traversedCount : Z;
  pulled : nat
}.

Definition Scan_start : Scan :=
  {| scan_files := []; duplicateFiles := []; traversedCount := 0; pulled := 0 |}.

(** [fileNames.includes(directories[0]) || fileNames.includes(fileName)] *)
Definition hasDuplicate (fileNames : list string) (path : string) (file : File) : bool :=
  let directories := Js.split "/" path in
  let fileName := path +:+ file_name file in
  match directories !! 0%nat with
  | Some d => Js.arr_includes d fileNames
  | None => false
  end || Js.arr_includes fileName fileNames.

(** The loop [for await (const { path, file } of traverse(iterator))]. *)
Fixpoint scanDuplicates (fileNames : list string) (ignoreDuplicate : bool)
    (traversal : list (string * File)) (acc : Scan) : Scan :=
  match traversal with
  | [] => acc
  | (path, file) :: rest =>
      let fileName := path +:+ file_name file in
      let accept (dups : list string) :=
        {| scan_files := scan_files acc ++ [(path, file)];
           duplicateFiles := dups;
           traversedCount := traversedCount acc + 1;
           pulled := S (pulled acc) |} in
      if negb ignoreDuplicate && (length (duplicateFiles acc) <? 5)%nat &&
         hasDuplicate fileNames path file
      then
        let dups := duplicateFiles acc ++ [fileName] in
        if (length dups =? 5)%nat || (traversedCount acc =? 100)
        then {| scan_files := scan_files acc;
                duplicateFiles := dups;
                traversedCount := traversedCount acc;
                pulled := S (pulled acc) |}
        else scanDuplicates fileNames ignoreDuplicate rest (accept dups)
      else scanDuplicates fileNames ignoreDuplicate rest (accept (duplicateFiles acc))
  end.

Definition MAX_UPLOAD_SIZE : Z := 30 * 1024 * 1024 * 1024.

Definition enqueueUpload (env : Env) (key : string) (body : File) : M unit :=
  assertIsInitialized ;;
  w <- get ;;
  let st := World.state w in
  if existsb (fun ref => hasKey w key ref && hasStatus w InProgress ref)
       (FilesState.uploading st)
  then notifyError (key +:+ " is already uploading") OBJECT_UPLOAD_ERROR
  else
    modify (World.set_uploadingModal true) ;;
    (match Js.findIndex (hasKey w key) (FilesState.uploading st) with
     | Some index => setUploading (Js.splice1 index (FilesState.uploading st))
     | None => ret tt
     end) ;;
    let entry (upload : option nat) (status : UploadingStatus)
        (failedMessage : option FailedUploadMessage) :=
      {| base :=
           {| Key := key; progress := Some 0; Size := Some 0;
              LastModified := Some (now env); type := Some type_file;
              upload := upload;
              VersionId := None; isDeleteMarker := None; isLatest := None;
              path := None; Versions := None |};
         status := status;
         Bucket := FilesState.bucket st;
         Body := body;
         failedMessage := failedMessage |} in
    if MAX_UPLOAD_SIZE <? file_size body
    then pushUploading (entry None Failed (Some TooBig))
    else
      w <- get ;;
      let upload := length (World.links w) in
      pushUploading (entry (Some upload) InProgress None) ;;
      modify (fun w =>
        World.set_state
          (FilesState.set_uploadChain (Some upload) (World.state w))
          (World.set_links
             (World.links w ++
                [{| link_key := key;
                    link_prev := FilesState.uploadChain (World.state w);
                    link_phase := Pending;
                    link_aborted := false;
                    link_listening := true |}]) w)).

(** [upload], given the pairs the traversal of the dropped items yields. *)
Definition upload (env : Env) (traversal : list (string * File))
    (ignoreDuplicate : bool) : M unit :=
  assertIsInitialized ;;
  st <- getState ;;
  let fileNames := map Key (FilesState.files st) in
  let scan := scanDuplicates fileNames ignoreDuplicate traversal Scan_start in
  if (0 <? length (duplicateFiles scan))%nat
  then throw (DuplicateUploadError (duplicateFiles scan))
  else
    forEach (fun '(path, file) =>
               let directories := Js.split "/" path in
               let fileName := Js.join "/" directories +:+ file_name file in
               st <- getState ;;
               enqueueUpload env (FilesState.path st +:+ fileName) file)
            (scan_files scan).

Definition handleUploadError (item : nat) (error : Exn) : M unit :=
  w <- get ;;
  if String.eqb (Exn_name error) "AbortError" && hasStatus w Cancelled item
  then ret tt
  else
    mutate item (set_status Failed) ;;
    mutate item (set_failedMessage Failed_msg) ;;
    let limitExceededError := "storage limit exceeded" in
    if Js.includes limitExceededError (Exn_message error)
    then notifyError ("Error: " +:+ limitExceededError) OBJECT_UPLOAD_ERROR
    else notifyError (Exn_message error) OBJECT_UPLOAD_ERROR.

Definition abortUpload (l : nat) : M unit :=
  modify (fun w =>
    match World.links w !! l with
    | Some lk =>
        World.set_links
          (<[l := {| link_key := link_key lk; link_prev := link_prev lk;
                     link_phase := link_phase lk; link_aborted := true;
                     link_listening := link_listening lk |}]> (World.links w)) w
    | None => w
    end).

Definition cancelUpload (key : string) : M unit :=
  w <- get ;;
  match List.find (hasKey w key) (FilesState.uploading (World.state w)) with
  | None => throw (Error "Error" ("File '" +:+ key +:+ "' not found"))
  | Some ref =>
      (match deref w ref with
       | Some f =>
           match BrowserObject.upload (base f) with
           | Some l => abortUpload l
           | None => ret tt
           end
       | None => ret tt
       end) ;;
      mutate ref (set_status Cancelled)
  end.

Definition clearUploading : M unit := setUploading [].

(** *** Deletion *)

(** [(file.path ?? '') + file.Key + (file.VersionId ?? '')] *)
Definition compositeKey (file : BrowserObject) : string :=
  default "" (path file) +:+ Key file +:+ default "" (VersionId file).

Definition addFileToBeDeleted (files : list BrowserObject) : M unit :=
  forEach (fun file =>
             modifyState (fun st =>
               FilesState.set_filesToBeDeleted
                 (FilesState.filesToBeDeleted st ∪ {[compositeKey file]}) st))
          files.

(** [singleFile.Key === file.Key && singleFile.path === file.path] *)
Definition sameRow (file singleFile : BrowserObject) : bool :=
  String.eqb (Key singleFile) (Key file) &&
  bool_decide (path singleFile = path file).

Definition removeFile (file : BrowserObject) : M unit :=
  modifyState (fun st =>
    FilesState.set_files
      (List.filter (fun singleFile => negb (sameRow file singleFile))
         (FilesState.files st))
      (FilesState.set_filesToBeDeleted
         (FilesState.filesToBeDeleted st ∖ {[compositeKey file]}) st)).

(** A backend entry handed to [deleteObject] in place of a [BrowserObject]. *)
Definition asFile (item : S3.Item) : BrowserObject :=
  {| Key := S3.Key item; VersionId := S3.VersionId item;
     Size := S3.Size item; LastModified := S3.LastModified item;
     type := None; isDeleteMarker := None; isLatest := None;
     progress := None; BrowserObject.upload := None; path := None;
     Versions := None |}.

(** [state.uploading = state.uploading.filter(f => f.Key !== key)] *)
Definition dropUploading (key : string) : M unit :=
  w <- get ;;
  setUploading
    (List.filter (fun ref => negb (hasKey w key ref))
       (FilesState.uploading (World.state w))).

Definition deleteObject (env : Env) (path : string) (file : option BrowserObject)
    (isFolder shouldRefresh : bool) : M unit :=
  match file with
  | None => ret tt
  | Some file =>
      assertIsInitialized ;;
      (if negb isFolder then addFileToBeDeleted [file] else ret tt) ;;
      st <- getState ;;
      send env (S3.DeleteObjectCommand (FilesState.bucket st)
                  (path +:+ Key file) (VersionId file)) ;;
      dropUploading (path +:+ Key file) ;;
      if negb isFolder then
        (if shouldRefresh then refresh env else ret tt) ;;
        removeFile file
      else ret tt
  end.

(** [await Promise.all(tasks)] with the tasks run one after the other:
    every task runs to its end, the first rejection is the one reported. *)
Fixpoint promiseAll_run (tasks : list (M unit)) (err : option Exn) : M (option Exn) :=
  match tasks with
  | [] => ret err
  | task :: rest =>
      r <- catch task ;;
      match r with
      | inr _ => promiseAll_run rest err
      | inl e => promiseAll_run rest (Some (default e err))
      end
  end.

Definition rethrow (err : option Exn) : M unit :=
  match err with
  | Some e => throw e
  | None => ret tt
  end.

Definition promiseAll (tasks : list (M unit)) : M unit :=
  err <- promiseAll_run tasks None ;;
  rethrow err.

Definition deleteObjectWithVersions (env : Env) (path : string) (file : BrowserObject)
    : M unit :=
  assertIsInitialized ;;
  st <- getState ;;
  response <- send env
    (S3.ListObjectVersionsCommand (FilesState.bucket st) "/" (path +:+ Key file)
       None None None) ;;
  let versions := default [] (S3.Versions response) in
  let deleteMarkers := default [] (S3.DeleteMarkers response) in
  promiseAll
    (map (fun version =>
            send env (S3.DeleteObjectCommand (FilesState.bucket st)
                        (path +:+ Key file) (S3.VersionId version)) ;;
            ret tt)
         (versions ++ deleteMarkers)) ;;
  dropUploading (path +:+ Key file) ;;
  removeFile file.

(** The three [thread()]s that pop from the shared [Contents]: [stack] is
    [Contents] seen from its end, [alive] the number of threads that have
    not failed.  A thread stops at its first failed delete, the others go
    on; the deletes are taken one after the other. *)
Fixpoint threads (env : Env) (shouldRefresh : bool) (alive : nat)
    (stack : list S3.Item) (err : option Exn) : M (option Exn) :=
  match stack, alive with
  | [], _ => ret err
  | _, O => ret err
  | file :: rest, S others =>
      r <- catch (deleteObject env "" (Some (asFile file)) true shouldRefresh) ;;
      match r with
      | inr _ => threads env shouldRefresh alive rest err
      | inl e => threads env shouldRefresh others rest (Some (default e err))
      end
  end.

Definition outOfFuel {A} : M A := fun w => (OutOfFuel, w).

(** [recurse] of [deleteFolder]; [fuel] bounds the depth of the prefixes
    the backend reports. *)
Fixpoint deleteFolder_recurse (env : Env) (shouldRefresh : bool) (fuel : nat)
    (filePath : string) : M unit :=
  match fuel with
  | O => outOfFuel
  | S fuel =>
      assertIsInitialized ;;
      st <- getState ;;
      response <- send env (S3.ListObjectsCommand (FilesState.bucket st) "/" filePath) ;;
      let Contents := default [] (S3.Contents response) in
      let CommonPrefixes := default [] (S3.CommonPrefixes response) in
      err <- threads env shouldRefresh 3 (rev Contents) None ;;
      rethrow err ;;
      forEach (fun cp =>
                 deleteFolder_recurse env shouldRefresh fuel (default "" (S3.Prefix cp)))
              CommonPrefixes
  end.

Definition folderPrefix (file : BrowserObject) (path : string) : string :=
  if (0 <? String.length path)%nat then path +:+ Key file else Key file +:+ "/".

Definition deleteFolder (env : Env) (fuel : nat) (file : BrowserObject) (path : string)
    (shouldRefresh : bool) : M unit :=
  assertIsInitialized ;;
  addFileToBeDeleted [file] ;;
  deleteFolder_recurse env shouldRefresh fuel (folderPrefix file path) ;;
  removeFile file ;;
  if shouldRefresh then refresh env else ret tt.

(** [recurse] of [deleteFolderWithVersions]. *)
Fixpoint deleteFolderWithVersions_recurse (env : Env) (fuel : nat) (filePath : string)
    : M unit :=
  match fuel with
  | O => outOfFuel
  | S fuel =>
      assertIsInitialized ;;
      st <- getState ;;
      response <- send env
        (S3.ListObjectVersionsCommand (FilesState.bucket st) "/" filePath
           None None None) ;;
      let Versions := default [] (S3.Versions response) in
      let DeleteMarkers := default [] (S3.DeleteMarkers response) in
      let Contents := Versions ++ DeleteMarkers in
      let CommonPrefixes := default [] (S3.CommonPrefixes response) in
      err <- threads env false 3 (rev Contents) None ;;
      rethrow err ;;
      forEach (fun cp =>
                 deleteFolderWithVersions_recurse env fuel (default "" (S3.Prefix cp)))
              CommonPrefixes
  end.

Definition deleteFolderWithVersions (env : Env) (fuel : nat) (file : BrowserObject)
    (path : string) : M unit :=
  assertIsInitialized ;;
  addFileToBeDeleted [file] ;;
  deleteFolderWithVersions_recurse env fuel (folderPrefix file path) ;;
  removeFile file.

Definition deleteSelected (env : Env) (fuel : nat) (withVersions : bool) : M unit :=
  st <- getState ;;
  addFileToBeDeleted (FilesState.selectedFiles st) ;;
  promiseAll
    (map (fun file =>
            match type file with
            | Some type_file =>
                if withVersions
                then deleteObjectWithVersions env (FilesState.path st) file
                else deleteObject env (FilesState.path st) (Some file) false false
            | _ =>
                if withVersions
                then deleteFolderWithVersions env fuel file (FilesState.path st)
                else deleteFolder env fuel file (FilesState.path st) false
            end)
         (FilesState.selectedFiles st)).

(** *** Remaining operations *)

(** A call that is not awaited: a rejection is not seen by the caller. *)
Definition detached (c : M unit) : M unit :=
  _ <- catch c ;; ret tt.

Definition createFolder (env : Env) (name : string) : M unit :=
  assertIsInitialized ;;
  st <- getState ;;
  send env (S3.PutObjectCommand (FilesState.bucket st)
              (FilesState.path st +:+ name +:+ "/.file_placeholder") "") ;;
  w <- get ;;
  if FilesState.showObjectVersions (World.state w) then
    clearTokens ;;
    listAllVersions env (Some (FilesState.path (World.state w))) (Some 1) true
  else if isAltPagination w then
    clearTokens ;;
    detached (listCustom env (Some (FilesState.path (World.state w))) 1 true)
  else detached (initList env None).

Definition restoreObject (env : Env) (obj : BrowserObject) : M unit :=
  assertIsInitialized ;;
  st <- getState ;;
  send env
    (S3.CopyObjectCommand
       (FilesState.bucket st +:+ "/" +:+ Key obj +:+ "?versionId=" +:+
          default "undefined" (VersionId obj))
       (FilesState.bucket st) (Key obj) "REPLACE") ;;
  ret tt.

Definition countVersions (env : Env) (objectKey : string) : M string :=
  assertIsInitialized ;;
  st <- getState ;;
  response <- send env
    (S3.ListObjectVersionsCommand (FilesState.bucket st) "/" objectKey
       None None None) ;;
  let allVersions :=
    List.filter (fun v => isFileVisible (asFile v))
      (default [] (S3.Versions response) ++ default [] (S3.DeleteMarkers response)) in
  let listedCount := pretty (length allVersions) in
  if default false (S3.IsTruncated response) ||
     (0 <? length (default [] (S3.CommonPrefixes response)))%nat
  then ret (listedCount +:+ "+")
  else ret listedCount.

Definition updateSelectedFiles (files : list BrowserObject) : M unit :=
  modifyState (FilesState.set_selectedFiles files).

Definition flip (orderBy : OrderBy) : OrderBy :=
  match orderBy with
  | asc => desc
  | desc => asc
  end.

Definition sort (headingSorted : string) : M unit :=
  modifyState (fun st =>
    FilesState.set_headingSorted headingSorted
      (FilesState.set_orderBy
         (if String.eqb (FilesState.headingSorted st) headingSorted
          then flip (FilesState.orderBy st) else asc) st)).

Definition setObjectPathForModal (path : string) : M unit :=
  modifyState (FilesState.set_objectPathForModal path).

Definition cacheObjectPreviewURL (path : string) (cacheValue : PreviewCache) : M unit :=
  modifyState (fun st =>
    FilesState.set_cachedObjectPreviewURLs
      (<[path := cacheValue]> (FilesState.cachedObjectPreviewURLs st)) st).

Definition removeFromObjectPreviewCache (path : string) : M unit :=
  modifyState (fun st =>
    FilesState.set_cachedObjectPreviewURLs
      (delete path (FilesState.cachedObjectPreviewURLs st)) st).

Definition toggleShowObjectVersions : M unit :=
  clearTokens ;;
  updateVersionsExpandedKeys [] ;;
  updateSelectedFiles [] ;;
  st <- getState ;;
  updateFiles (FilesState.path st) [] ;;
  modifyState (fun st =>
    FilesState.set_showObjectVersions (negb (FilesState.showObjectVersions st)) st).

Definition setObjectCountOfSelectedBucket (count : Z) : M unit :=
  modifyState (FilesState.set_objectCountOfSelectedBucket count) ;;
  modify (World.set_localData (Some count)).

(** [clear]: every field is reset.  The upload entries and the chain links
    already created stay on the heap, where their closures hold them. *)
Definition clear : M unit :=
  modify (fun w =>
    World.set_state
      {| FilesState.s3 := None;
         FilesState.accessKey := None;
         FilesState.path := "";
         FilesState.bucket := "";
         FilesState.browserRoot := "/";
         FilesState.files := [];
         FilesState.cursor :=
           {| ObjectBrowserCursor.limit := DEFAULT_PAGE_LIMIT (World.config w);
              ObjectBrowserCursor.page := 1 |};
         FilesState.continuationTokens := ∅;
         FilesState.totalObjectCount := 0;
         FilesState.activeObjectsRange := {| range_start := 1; range_end := 500 |};
         FilesState.uploadChain := None;
         FilesState.uploading := [];
         FilesState.selectedFiles := [];
         FilesState.filesToBeDeleted := ∅;
         FilesState.openedDropdown := None;
         FilesState.headingSorted := "name";
         FilesState.orderBy := asc;
         FilesState.openModalOnFirstUpload := false;
         FilesState.objectPathForModal := "";
         FilesState.cachedObjectPreviewURLs := ∅;
         FilesState.showObjectVersions := false;
         FilesState.versionsExpandedKeys := [];
         FilesState.objectCountOfSelectedBucket := 0 |} w).

(** *** The public operations, as data

    Every operation the store returns that writes to the state or calls
    the transport.  [getDownloadLink] and [download] only sign a URL and
    click a link, [handleDeleteObjectRequest] and [filesDeleted] are
    empty: they are left out. *)

Inductive Op : Type :=
| Op_init (accessKey secretKey bucket endpoint browserRoot : string)
    (openModalOnFirstUpload : bool)
| Op_reinit (accessKey secretKey endpoint : string)
| Op_initList (env : Env) (path : option string)
| Op_listByToken (env : Env) (path : string) (key : Z) (continuationToken : string)
| Op_countVersions (env : Env) (objectKey : string)
| Op_listAllVersions (env : Env) (path : option string) (page : option Z)
    (saveNextToken : bool)
| Op_listCustom (env : Env) (path : option string) (page : Z) (saveNextToken : bool)
| Op_setCursor (cursor : ObjectBrowserCursor)
| Op_updateVersionsExpandedKeys (keys : list string)
| Op_sort (headingSorted : string)
| Op_upload (env : Env) (traversal : list (string * File)) (ignoreDuplicate : bool)
| Op_restoreObject (env : Env) (obj : BrowserObject)
| Op_createFolder (env : Env) (name : string)
| Op_deleteObject (env : Env) (path : string) (file : option BrowserObject)
    (isFolder shouldRefresh : bool)
| Op_deleteObjectWithVersions (env : Env) (path : string) (file : BrowserObject)
| Op_deleteFolder (env : Env) (fuel : nat) (file : BrowserObject) (path : string)
    (shouldRefresh : bool)
| Op_deleteFolderWithVersions (env : Env) (fuel : nat) (file : BrowserObject)
    (path : string)
| Op_deleteSelected (env : Env) (fuel : nat) (withVersions : bool)
| Op_updateSelectedFiles (files : list BrowserObject)
| Op_setObjectPathForModal (path : string)
| Op_cancelUpload (key : string)
| Op_cacheObjectPreviewURL (path : string) (cacheValue : PreviewCache)
| Op_removeFromObjectPreviewCache (path : string)
| Op_clearUploading
| Op_toggleShowObjectVersions
| Op_setObjectCountOfSelectedBucket (count : Z)
| Op_clear
| Op_clearTokens.

Definition run_op (op : Op) : M unit :=
  match op with
  | Op_init a s b e r o => init a s b e r o
  | Op_reinit a s e => reinit a s e
  | Op_initList env path => initList env path
  | Op_listByToken env path key tok => listByToken env path key tok
  | Op_countVersions env key => _ <- countVersions env key ;; ret tt
  | Op_listAllVersions env path page save => listAllVersions env path page save
  | Op_listCustom env path page save => listCustom env path page save
  | Op_setCursor c => setCursor c
  | Op_updateVersionsExpandedKeys keys => updateVersionsExpandedKeys keys
  | Op_sort h => sort h
  | Op_upload env traversal ignoreDuplicate => upload env traversal ignoreDuplicate
  | Op_restoreObject env obj => restoreObject env obj
  | Op_createFolder env name => createFolder env name
  | Op_deleteObject env path file isFolder shouldRefresh =>
      deleteObject env path file isFolder shouldRefresh
  | Op_deleteObjectWithVersions env path file => deleteObjectWithVersions env path file
  | Op_deleteFolder env fuel file path shouldRefresh =>
      deleteFolder env fuel file path shouldRefresh
  | Op_deleteFolderWithVersions env fuel file path =>
      deleteFolderWithVersions env fuel file path
  | Op_deleteSelected env fuel withVersions => deleteSelected env fuel withVersions
  | Op_updateSelectedFiles files => updateSelectedFiles files
  | Op_setObjectPathForModal path => setObjectPathForModal path
  | Op_cancelUpload key => cancelUpload key
  | Op_cacheObjectPreviewURL path v => cacheObjectPreviewURL path v
  | Op_removeFromObjectPreviewCache path => removeFromObjectPreviewCache path
  | Op_clearUploading => clearUploading
  | Op_toggleShowObjectVersions => toggleShowObjectVersions
  | Op_setObjectCountOfSelectedBucket count => setObjectCountOfSelectedBucket count
  | Op_clear => clear
  | Op_clearTokens => clearTokens
  end.

(** *** The links of the upload chain, one step at a time *)

Definition set_phase (l : nat) (ph : Phase) : M unit :=
  modify (fun w =>
    match World.links w !! l with
    | Some lk =>
        World.set_links
          (<[l := {| link_key := link_key lk; link_prev := link_prev lk;
                     link_phase := ph; link_aborted := link_aborted lk;
                     link_listening := link_listening lk |}]> (World.links w)) w
    | None => w
    end).

(** [upload.off('httpUploadProgress', progressListener)] *)
Definition off (l : nat) : M unit :=
  modify (fun w =>
    match World.links w !! l with
    | Some lk =>
        World.set_links
          (<[l := {| link_key := link_key lk; link_prev := link_prev lk;
                     link_phase := link_phase lk; link_aborted := link_aborted lk;
                     link_listening := false |}]> (World.links w)) w
    | None => w
    end).

(** The callback of a link up to [await upload.done()]. *)
Definition link_invoke (l : nat) (key : string) : M unit :=
  w <- get ;;
  match List.find (fun ref => hasKey w key ref && negb (hasStatus w Cancelled ref))
          (FilesState.uploading (World.state w)) with
  | None => set_phase l Fulfilled
  | Some item => set_phase l (AwaitingTransfer item)
  end.

(** The callback from the settling of [upload.done()] to the start of the
    refresh. *)
Definition link_transferSettled (l item : nat) (error : option Exn) : M unit :=
  match error with
  | None =>
      mutate item (set_status Finished) ;;
      off l ;;
      set_phase l Refreshing
  | Some error =>
      handleUploadError item error ;;
      off l ;;
      set_phase l Fulfilled
  end.

(** The refresh for the current mode and the end of the callback. *)
Definition link_refresh (env : Env) (l : nat) (key : string) : M unit :=
  r <- catch (refresh env) ;;
  match r with
  | inl e => set_phase l (Rejected e true)
  | inr _ =>
      st <- getState ;;
      let uploadedFiles :=
        List.filter (fun f => match type f with Some type_file => true | _ => false end)
          (FilesState.files st) in
      (if (length uploadedFiles =? 1)%nat && negb (Js.includes "/" key) &&
          FilesState.openModalOnFirstUpload st
       then modifyState (FilesState.set_objectPathForModal key)
       else ret tt) ;;
      set_phase l Fulfilled
  end.

(** [progressListener].  The percentage is [Math.round(loaded / total * 100)],
    computed here on integers for a positive [total]. *)
Definition progressListener (l : nat) (key : string) (loaded total : Z) : M unit :=
  w <- get ;;
  match List.find (hasKey w key) (FilesState.uploading (World.state w)) with
  | None =>
      off l ;;
      notifyError ("Error updating progress. No file found with key '" +:+ key +:+ "'")
        OBJECT_UPLOAD_ERROR
  | Some item =>
      let p :=
        if (loaded =? 0) || (total =? 0) then 0
        else (200 * loaded + total) / (2 * total) in
      mutate item (set_progress p)
  end.

Inductive Event : Type :=
| Call (op : Op)
| LinkInvoked (l : nat)
| TransferSettled (l : nat) (error : option Exn)
| RefreshSettled (l : nat) (env : Env)
| ProgressEvent (l : nat) (loaded total : Z).

(** What an event does, when it can happen.  A link is invoked once the
    promise it was chained on is fulfilled; when that promise is rejected
    the link is rejected without being invoked. *)
Definition step (ev : Event) (w : World.t) : option World.t :=
  match ev with
  | Call op =>
      match run_op op w with
      | (OutOfFuel, _) => None
      | (_, w') => Some w'
      end
  | LinkInvoked l =>
      match World.links w !! l with
      | Some lk =>
          match link_phase lk with
          | Pending =>
              match link_prev lk with
              | None => Some (link_invoke l (link_key lk) w).2
              | Some p =>
                  match link_phase <$> World.links w !! p with
                  | Some Fulfilled => Some (link_invoke l (link_key lk) w).2
                  | Some (Rejected e _) => Some (set_phase l (Rejected e false) w).2
                  | _ => None
                  end
              end
          | _ => None
          end
      | None => None
      end
  | TransferSettled l error =>
      match link_phase <$> World.links w !! l with
      | Some (AwaitingTransfer item) => Some (link_transferSettled l item error w).2
      | _ => None
      end
  | RefreshSettled l env =>
      match World.links w !! l with
      | Some lk =>
          match link_phase lk with
          | Refreshing => Some (link_refresh env l (link_key lk) w).2
          | _ => None
          end
      | None => None
      end
  | ProgressEvent l loaded total =>
      match World.links w !! l with
      | Some lk =>
          if link_listening lk
          then Some (progressListener l (link_key lk) loaded total w).2
          else None
      | None => None
      end
  end.

Fixpoint run (evs : list Event) (w : World.t) : option World.t :=
  match evs with
  | [] => Some w
  | ev :: rest =>
      match step ev w with
      | Some w' => run rest w'
      | None => None
      end
  end.

Definition reachable (cfg : Config) (localCount : option Z) (w : World.t) : Prop :=
  exists evs, run evs (World_new cfg localCount) = Some w.

End Store.

(** * Properties *)

(** ** The string functions on sample inputs *)

Example split_token : Js.split "::" "key::version" = ["key"; "version"]%string.
Proof. reflexivity. Qed.

Example split_path : Js.split "/" "photos/2024/" = ["photos"; "2024"; ""]%string.
Proof. reflexivity. Qed.

Example split_empty : Js.split "/" "" = [""%string].
Proof. reflexivity. Qed.

Example join_split : Js.join "/" (Js.split "/" "photos/2024/") = "photos/2024/"%string.
Proof. reflexivity. Qed.

Example slice_prefix : Js.slice_to_last 7 "photos/2024/" = "2024"%string.
Proof. reflexivity. Qed.

Example slice_key : Js.slice_from 7 "photos/a.txt" = "a.txt"%string.
Proof. reflexivity. Qed.

Example includes_placeholder :
  Js.includes ".file_placeholder" "photos/.file_placeholder" = true /\
  Js.includes "/" "a.txt" = false.
Proof. split; reflexivity. Qed.

(** ** The sort *)

Section SortFacts.

Context {A : Type} (cmp : A -> A -> Z).

Lemma insert_lt_perm (x : A) (racc : list A) :
  Permutation (Js.insert_lt cmp x racc) (x :: racc).
Proof.
  induction racc as [|y r IH]; simpl; [reflexivity|].
  destruct (cmp x y <? 0); [|reflexivity].
  rewrite IH. apply perm_swap.
Qed.

Lemma insert_le_perm (x : A) (racc : list A) :
  Permutation (Js.insert_le cmp x racc) (x :: racc).
Proof.
  induction racc as [|y r IH]; simpl; [reflexivity|].
  destruct (cmp y x <=? 0); [reflexivity|].
  rewrite IH. apply perm_swap.
Qed.

Lemma fold_insert_perm (ins : A -> list A -> list A)
    (Hins : forall x r, Permutation (ins x r) (x :: r)) (l acc : list A) :
  Permutation (fold_left (fun racc x => ins x racc) l acc) (l ++ acc).
Proof.
  revert acc. induction l as [|x l IH]; intros acc; simpl; [reflexivity|].
  rewrite IH, Hins. symmetry. apply Permutation_middle.
Qed.

Lemma isort_perm (l : list A) : Permutation (Js.isort cmp l) l.
Proof.
  unfold Js.isort. rewrite <- Permutation_rev.
  rewrite (fold_insert_perm _ (insert_lt_perm)). now rewrite app_nil_r.
Qed.

Lemma isort_le_perm (l : list A) : Permutation (Js.isort_le cmp l) l.
Proof.
  unfold Js.isort_le. rewrite <- Permutation_rev.
  rewrite (fold_insert_perm _ (insert_le_perm)). now rewrite app_nil_r.
Qed.

(** Consequences of consistency on the elements of [l]. *)
Section Consistent.

Variable l : list A.
Hypothesis Hc : Js.consistent cmp l.

Lemma consistent_antisym (a b : A) :
  In a l -> In b l -> cmp a b > 0 -> cmp b a < 0.
Proof.
  destruct Hc as (Hrefl & Hsym & _ & _ & Hgt).
  intros Ha Hb Hab.
  destruct (Z.compare_spec (cmp b a) 0) as [H0|Hlt|Hgt0]; [|exact Hlt|].
  - apply (Hsym b a) in H0; auto. lia.
  - assert (cmp a a > 0) by (apply (Hgt a b a); auto; lia).
    rewrite (Hrefl a Ha) in *. lia.
Qed.

Lemma consistent_antisym' (a b : A) :
  In a l -> In b l -> cmp a b < 0 -> cmp b a > 0.
Proof.
  destruct Hc as (Hrefl & Hsym & _ & Hlt & _).
  intros Ha Hb Hab.
  destruct (Z.compare_spec (cmp b a) 0) as [H0|Hlt0|Hgt0]; [| |lia].
  - apply (Hsym b a) in H0; auto. lia.
  - assert (cmp a a < 0) by (apply (Hlt a b a); auto).
    rewrite (Hrefl a Ha) in *. lia.
Qed.

Lemma consistent_test (a b : A) :
  In a l -> In b l -> (cmp b a <=? 0) = negb (cmp a b <? 0).
Proof.
  intros Ha Hb.
  destruct (Z.ltb_spec (cmp a b) 0) as [Hlt|Hge]; simpl.
  - apply consistent_antisym' in Hlt; auto. apply Z.leb_gt. lia.
  - apply Z.leb_le.
    destruct (Z.eq_dec (cmp a b) 0) as [H0|Hne].
    + destruct Hc as (_ & Hsym & _). rewrite (Hsym a b); auto. lia.
    + assert (cmp a b > 0) as Hgt by lia.
      apply consistent_antisym in Hgt; auto. lia.
Qed.

Lemma consistent_le_trans (a b c : A) :
  In a l -> In b l -> In c l -> cmp a b <= 0 -> cmp b c <= 0 -> cmp a c <= 0.
Proof.
  intros Ha Hb Hc' Hab Hbc.
  pose proof Hc as (Hrefl & Hsym & Heq & Hlt & Hgt).
  destruct (Z.compare_spec (cmp a c) 0) as [H0|Hlt0|Hgt0]; [lia|lia|exfalso].
  assert (cmp c a < 0) as Hca by (apply consistent_antisym; auto; lia).
  destruct (Z.eq_dec (cmp a b) 0) as [Hab0|Hab0];
    destruct (Z.eq_dec (cmp b c) 0) as [Hbc0|Hbc0].
  - pose proof (Heq a b c Ha Hb Hc' Hab0 Hbc0). lia.
  - (* a = b, b < c, c < a: so b < a *)
    assert (cmp b a < 0) by (apply (Hlt b c a); auto; lia).
    rewrite (Hsym a b) in *; auto; lia.
  - (* a < b, b = c, c < a: so c < b *)
    assert (cmp c b < 0) by (apply (Hlt c a b); auto; lia).
    rewrite (Hsym b c) in *; auto; lia.
  - assert (cmp a c < 0) by (apply (Hlt a b c); auto; lia). lia.
Qed.

End Consistent.

Lemma consistent_incl (l l' : list A) :
  (forall a, In a l' -> In a l) -> Js.consistent cmp l -> Js.consistent cmp l'.
Proof.
  intros Hin (H1 & H2 & H3 & H4 & H5).
  repeat split; intros; eauto 10.
Qed.

(** The two insertion loops coincide on a consistent comparator. *)
Lemma insert_le_lt (l : list A) (x : A) (racc : list A) :
  Js.consistent cmp l -> In x l -> (forall y, In y racc -> In y l) ->
  Js.insert_le cmp x racc = Js.insert_lt cmp x racc.
Proof.
  intros Hc Hx. induction racc as [|y r IH]; intros Hin; simpl; [reflexivity|].
  rewrite (consistent_test l Hc x y Hx (Hin y (or_introl eq_refl))).
  destruct (cmp x y <? 0); simpl; [|reflexivity].
  f_equal. apply IH. intros z Hz. apply Hin. now right.
Qed.

Lemma isort_le_consistent (l : list A) :
  Js.consistent cmp l -> Js.isort_le cmp l = Js.isort cmp l.
Proof.
  intros Hc. unfold Js.isort_le, Js.isort. f_equal.
  assert (forall pre acc,
            (forall y, In y pre -> In y l) -> (forall y, In y acc -> In y l) ->
            fold_left (fun racc x => Js.insert_le cmp x racc) pre acc =
            fold_left (fun racc x => Js.insert_lt cmp x racc) pre acc) as H.
  { induction pre as [|x pre IH]; intros acc Hpre Hacc; simpl; [reflexivity|].
    rewrite (insert_le_lt l); auto; [|apply Hpre; now left].
    apply IH.
    - intros y Hy. apply Hpre. now right.
    - intros y Hy.
      apply (Permutation_in _ (insert_lt_perm x acc)) in Hy.
      destruct Hy as [<-|Hy]; [apply Hpre; now left|now apply Hacc]. }
  apply H; [auto|intros y []].
Qed.

(** On a consistent comparator the insertion sort orders its input. *)
Lemma insert_lt_sorted (l : list A) (x : A) (racc : list A) :
  Js.consistent cmp l -> In x l -> (forall y, In y racc -> In y l) ->
  StronglySorted (fun b a => cmp a b <= 0) racc ->
  StronglySorted (fun b a => cmp a b <= 0) (Js.insert_lt cmp x racc).
Proof.
  intros Hc Hx. induction racc as [|y r IH]; intros Hin Hs; simpl.
  - constructor; constructor.
  - apply StronglySorted_inv in Hs as [Hs Hall].
    destruct (Z.ltb_spec (cmp x y) 0) as [Hlt|Hge].
    + constructor.
      * apply IH; auto. intros z Hz. apply Hin. now right.
      * apply List.Forall_forall. intros z Hz.
        apply (Permutation_in _ (insert_lt_perm x r)) in Hz.
        destruct Hz as [<-|Hz]; [lia|].
        rewrite List.Forall_forall in Hall. now apply Hall.
    + assert (cmp y x <= 0) as Hyx.
      { pose proof (consistent_test l Hc x y Hx (Hin y (or_introl eq_refl))) as Ht.
        destruct (Z.ltb_spec (cmp x y) 0); [lia|]. simpl in Ht.
        now apply Z.leb_le. }
      constructor; [constructor; auto|].
      constructor; [exact Hyx|].
      apply List.Forall_forall. intros z Hz.
      rewrite List.Forall_forall in Hall.
      apply (consistent_le_trans l Hc z y x); auto.
      * apply Hin. now right.
      * apply Hin. now left.
Qed.

Lemma isort_rev_sorted (l : list A) :
  Js.consistent cmp l ->
  StronglySorted (fun b a => cmp a b <= 0)
    (fold_left (fun racc x => Js.insert_lt cmp x racc) l []).
Proof.
  intros Hc.
  assert (forall pre acc,
            (forall y, In y pre -> In y l) -> (forall y, In y acc -> In y l) ->
            StronglySorted (fun b a => cmp a b <= 0) acc ->
            StronglySorted (fun b a => cmp a b <= 0)
              (fold_left (fun racc x => Js.insert_lt cmp x racc) pre acc)) as H.
  { induction pre as [|x pre IH]; intros acc Hpre Hacc Hs; simpl; [exact Hs|].
    apply IH.
    - intros y Hy. apply Hpre. now right.
    - intros y Hy.
      apply (Permutation_in _ (insert_lt_perm x acc)) in Hy.
      destruct Hy as [<-|Hy]; [apply Hpre; now left|now apply Hacc].
    - apply (insert_lt_sorted l); auto. apply Hpre. now left. }
  apply H; [auto|intros y []|constructor].
Qed.

Lemma StronglySorted_rev (R : A -> A -> Prop) (l : list A) :
  StronglySorted (fun b a => R a b) l -> StronglySorted R (rev l).
Proof.
  induction 1 as [|x l Hs IH Hall]; simpl; [constructor|].
  apply StronglySorted_app_2; [|exact IH|repeat constructor].
  intros a b Ha Hb. apply list_elem_of_In in Ha, Hb.
  destruct Hb as [<-|[]]. apply in_rev in Ha.
  rewrite List.Forall_forall in Hall. now apply Hall.
Qed.

Lemma isort_sorted (l : list A) :
  Js.consistent cmp l -> StronglySorted (fun a b => cmp a b <= 0) (Js.isort cmp l).
Proof.
  intros Hc. unfold Js.isort. apply StronglySorted_rev. now apply isort_rev_sorted.
Qed.

(** The insertion sort is stable: the elements that a consistent
    comparator holds equal to [z] keep their order. *)
Lemma insert_lt_stable (l : list A) (z x : A) (racc : list A) :
  Js.consistent cmp l -> In z l -> In x l -> (forall y, In y racc -> In y l) ->
  List.filter (fun y => cmp z y =? 0) (Js.insert_lt cmp x racc) =
  List.filter (fun y => cmp z y =? 0) (x :: racc).
Proof.
  intros Hc Hz Hx. induction racc as [|y r IH]; intros Hin; [reflexivity|].
  cbn [Js.insert_lt].
  destruct (Z.ltb_spec (cmp x y) 0) as [Hlt|Hge]; [|reflexivity].
  cbn [List.filter]. rewrite IH by (intros y' Hy'; apply Hin; now right).
  cbn [List.filter].
  destruct (Z.eqb_spec (cmp z x) 0) as [Hzx|Hzx];
    destruct (Z.eqb_spec (cmp z y) 0) as [Hzy|Hzy]; try reflexivity.
  exfalso.
  assert (In y l) as Hy by (apply Hin; now left).
  pose proof Hc as (_ & Hsym & Heq & _).
  assert (cmp x y = 0); [|lia].
  apply (Heq x z y); auto.
Qed.

Lemma isort_stable (l : list A) (z : A) :
  Js.consistent cmp l -> In z l ->
  List.filter (fun y => cmp z y =? 0) (Js.isort cmp l) =
  List.filter (fun y => cmp z y =? 0) l.
Proof.
  intros Hc Hz. unfold Js.isort.
  assert (forall pre acc,
            (forall y, In y pre -> In y l) -> (forall y, In y acc -> In y l) ->
            List.filter (fun y => cmp z y =? 0)
              (rev (fold_left (fun racc x => Js.insert_lt cmp x racc) pre acc)) =
            List.filter (fun y => cmp z y =? 0) (rev acc) ++
            List.filter (fun y => cmp z y =? 0) pre) as H.
  { induction pre as [|x pre IH]; intros acc Hpre Hacc; cbn [fold_left].
    - now rewrite app_nil_r.
    - rewrite IH.
      + rewrite !List.filter_rev, (insert_lt_stable l); auto; [|apply Hpre; now left].
        cbn [List.filter].
        destruct (cmp z x =? 0); [|reflexivity].
        cbn [rev]. now rewrite <- app_assoc.
      + intros y Hy. apply Hpre. now right.
      + intros y Hy.
        apply (Permutation_in _ (insert_lt_perm x acc)) in Hy.
        destruct Hy as [<-|Hy]; [apply Hpre; now left|now apply Hacc]. }
  rewrite H; auto. intros y [].
Qed.

End SortFacts.

(** Two engines: the insertion sort, and the same loop with the exit test
    [cmp(swap, item) <= 0]. *)
Definition engine_lt : Js.Engine :=
  {| Js.sort := fun A => @Js.isort A;
     Js.sort_perm := fun A => @isort_perm A;
     Js.sort_consistent := fun A cmp l _ => eq_refl |}.

Definition engine_le : Js.Engine :=
  {| Js.sort := fun A => @Js.isort_le A;
     Js.sort_perm := fun A => @isort_le_perm A;
     Js.sort_consistent := fun A => @isort_le_consistent A |}.

(** ** Version grouping *)

(** The distinct keys of a list in the order of their first occurrence. *)
Definition firstOccurrences (keys : list string) : list string :=
  fold_left (fun seen k => if Js.arr_includes k seen then seen else seen ++ [k]) keys [].

(** The entries of one relative key, in response order. *)
Definition entriesOf (key : string) (entries : list BrowserObject) : list BrowserObject :=
  List.filter (fun e => String.eqb (Key e) key) entries.

Definition group_spec (entries : list BrowserObject) : list (string * list BrowserObject) :=
  map (fun k => (k, entriesOf k entries)) (firstOccurrences (map Key entries)).

Lemma arr_includes_In (k : string) (l : list string) :
  Js.arr_includes k l = true <-> In k l.
Proof.
  unfold Js.arr_includes. rewrite existsb_exists. split.
  - intros (x & Hx & Heq). apply String.eqb_eq in Heq. now subst.
  - intros H. exists k. split; [exact H|apply String.eqb_refl].
Qed.

Lemma firstOccurrences_snoc (ks : list string) (k : string) :
  firstOccurrences (ks ++ [k]) =
  if Js.arr_includes k (firstOccurrences ks) then firstOccurrences ks
  else firstOccurrences ks ++ [k].
Proof. unfold firstOccurrences. now rewrite fold_left_app. Qed.

Lemma firstOccurrences_In (ks : list string) (k : string) :
  In k (firstOccurrences ks) <-> In k ks.
Proof.
  revert k. induction ks as [|x ks IH] using rev_ind; intros k; [reflexivity|].
  rewrite firstOccurrences_snoc, in_app_iff. simpl.
  destruct (Js.arr_includes x (firstOccurrences ks)) eqn:Hx.
  - apply arr_includes_In in Hx. rewrite IH. rewrite IH in Hx.
    intuition (subst; auto).
  - rewrite in_app_iff, IH. simpl. tauto.
Qed.

Lemma firstOccurrences_NoDup (ks : list string) : List.NoDup (firstOccurrences ks).
Proof.
  induction ks as [|x ks IH] using rev_ind; [constructor|].
  rewrite firstOccurrences_snoc.
  destruct (Js.arr_includes x (firstOccurrences ks)) eqn:Hx; [exact IH|].
  apply NoDup_ListNoDup, NoDup_app. rewrite NoDup_ListNoDup.
  split; [exact IH|]. split; [|apply NoDup_singleton].
  intros y Hy Hy'. apply list_elem_of_In in Hy, Hy'.
  destruct Hy' as [<-|[]].
  apply arr_includes_In in Hy. congruence.
Qed.

Lemma entriesOf_snoc (k : string) (es : list BrowserObject) (e : BrowserObject) :
  entriesOf k (es ++ [e]) =
  entriesOf k es ++ (if String.eqb (Key e) k then [e] else []).
Proof. unfold entriesOf. now rewrite List.filter_app. Qed.

Lemma entriesOf_nil (k : string) (es : list BrowserObject) :
  ~ In k (map Key es) -> entriesOf k es = [].
Proof.
  unfold entriesOf.
  induction es as [|e es IH]; simpl; [reflexivity|]. intros Hn.
  destruct (String.eqb_spec (Key e) k) as [Heq|Hne]; [tauto|].
  apply IH. tauto.
Qed.

Lemma group_push_spec (es : list BrowserObject) (e : BrowserObject) (ks : list string) :
  List.NoDup ks ->
  (~ In (Key e) ks -> entriesOf (Key e) es = []) ->
  group_push (Key e) e (map (fun k => (k, entriesOf k es)) ks) =
  map (fun k => (k, entriesOf k (es ++ [e])))
    (if Js.arr_includes (Key e) ks then ks else ks ++ [Key e]).
Proof.
  induction ks as [|k ks IH]; intros Hnd Hnil; simpl.
  - rewrite entriesOf_snoc, String.eqb_refl, Hnil; auto.
  - inversion Hnd as [|? ? Hk Hnd']; subst.
    rewrite (String.eqb_sym (Key e) k).
    destruct (String.eqb_spec k (Key e)) as [->|Hne]; simpl.
    + rewrite entriesOf_snoc, String.eqb_refl. f_equal.
      apply map_ext_in. intros k' Hk'. f_equal.
      rewrite entriesOf_snoc.
      destruct (String.eqb_spec (Key e) k') as [Heq|]; [congruence|].
      now rewrite app_nil_r.
    + rewrite IH; auto; [|intros Hn; apply Hnil; intros [?|?]; tauto].
      destruct (Js.arr_includes (Key e) ks); simpl;
        rewrite entriesOf_snoc;
        destruct (String.eqb_spec (Key e) k) as [Heq|_]; try congruence;
        now rewrite app_nil_r.
Qed.

Lemma groupItems_entries (now : Date) (path : string) (allItems : list S3.Item) :
  groupItems now path allItems =
  fold_left (fun groups e => group_push (Key e) e groups)
    (omap (versionEntry now path) allItems) [].
Proof.
  unfold groupItems. generalize (@nil (string * list BrowserObject)).
  induction allItems as [|item items IH]; intros g; simpl; [reflexivity|].
  unfold groupItem at 2. destruct (versionEntry now path item); simpl; apply IH.
Qed.

Lemma fold_group_push_spec (es : list BrowserObject) :
  fold_left (fun groups e => group_push (Key e) e groups) es [] = group_spec es.
Proof.
  induction es as [|e es IH] using rev_ind; [reflexivity|].
  rewrite fold_left_app. simpl. rewrite IH. unfold group_spec.
  rewrite group_push_spec.
  - rewrite (List.map_app Key). simpl. now rewrite firstOccurrences_snoc.
  - apply firstOccurrences_NoDup.
  - intros Hn. apply entriesOf_nil. now rewrite <- firstOccurrences_In.
Qed.

Lemma groupItems_spec (now : Date) (path : string) (allItems : list S3.Item) :
  groupItems now path allItems = group_spec (omap (versionEntry now path) allItems).
Proof. now rewrite groupItems_entries, fold_group_push_spec. Qed.

Lemma StronglySorted_weaken {A} (R R' : A -> A -> Prop) (l : list A) :
  (forall a b, R a b -> R' a b) -> StronglySorted R l -> StronglySorted R' l.
Proof.
  intros HR. induction 1 as [|x l Hs IH Hall]; constructor; [exact IH|].
  eapply List.Forall_impl; [|exact Hall]. auto.
Qed.

Lemma omap_cons_Some {A B} (f : A -> option B) (x : A) (y : B) (l : list A) :
  f x = Some y -> omap f (x :: l) = y :: omap f l.
Proof. intros H. simpl. now rewrite H. Qed.

Lemma compareRecency_consistent (l : list BrowserObject) :
  Js.consistent compareRecency l.
Proof. unfold Js.consistent, compareRecency. repeat split; intros; lia. Qed.

(** What [latestOf] stores in a row, given the sorted group. *)
Definition rowOf (key : string) (top : BrowserObject) (items : list BrowserObject)
    : BrowserObject :=
  {| Key := key; Size := Size top; path := path top; type := type top;
     Versions := Some items; LastModified := LastModified top;
     isDeleteMarker := isDeleteMarker top;
     VersionId := None; isLatest := None; progress := None;
     BrowserObject.upload := None |}.

(** A row that represents the group of its key among [entries]: its
    [Versions] are that whole group, most recent first, and the row takes
    [LastModified] and [isDeleteMarker] from the first of them. *)
Definition represents (entries : list BrowserObject) (row : BrowserObject) : Prop :=
  exists top rest,
    Versions row = Some (top :: rest) /\
    Permutation (top :: rest) (entriesOf (Key row) entries) /\
    StronglySorted (fun a b => timeOf b <= timeOf a) (top :: rest) /\
    List.Forall (fun v => timeOf v <= timeOf top) (entriesOf (Key row) entries) /\
    LastModified row = LastModified top /\
    isDeleteMarker row = isDeleteMarker top.

Section Grouping.

Context (E : Js.Engine).

Lemma latestOf_represents (entries : list BrowserObject) (key : string) :
  In key (map Key entries) ->
  exists expanded row,
    latestOf E (key, entriesOf key entries) = Some (expanded, row) /\
    Key row = key /\ represents entries row.
Proof.
  intros Hin. unfold latestOf.
  rewrite (Js.sort_consistent E _ _ _ (compareRecency_consistent _)).
  pose proof (isort_perm compareRecency (entriesOf key entries)) as Hperm.
  pose proof (isort_sorted compareRecency (entriesOf key entries)
                (compareRecency_consistent _)) as Hsorted.
  destruct (Js.isort compareRecency (entriesOf key entries)) as [|top rest] eqn:Hs.
  - exfalso. apply Permutation_nil in Hperm.
    apply in_map_iff in Hin as (e & Hk & He).
    assert (In e (entriesOf key entries)) as Hf.
    { apply List.filter_In. split; [exact He|]. now apply String.eqb_eq. }
    rewrite Hperm in Hf. destruct Hf.
  - exists (default "" (path top) +:+ Key top), (rowOf key top (top :: rest)).
    split; [reflexivity|].
    split; [reflexivity|].
    exists top, rest. simpl. repeat split; try reflexivity.
    + exact Hperm.
    + eapply StronglySorted_weaken; [|exact Hsorted].
      unfold compareRecency. intros a b. simpl. lia.
    + apply List.Forall_forall. intros v Hv.
      apply (Permutation_in _ (Permutation_sym Hperm)) in Hv.
      destruct Hv as [<-|Hv]; [lia|].
      apply StronglySorted_inv in Hsorted as [_ Hall].
      rewrite List.Forall_forall in Hall. specialize (Hall v Hv).
      unfold compareRecency in Hall. lia.
Qed.

Lemma latestObjects_rows (now : Date) (path : string) (allItems : list S3.Item) :
  let entries := omap (versionEntry now path) allItems in
  map (fun kr => Key (snd kr)) (latestObjects E now path allItems) =
    firstOccurrences (map Key entries) /\
  List.Forall (represents entries) (map snd (latestObjects E now path allItems)).
Proof.
  intros entries. unfold latestObjects. rewrite groupItems_spec.
  fold entries. unfold group_spec.
  assert (forall ks, (forall k, In k ks -> In k (map Key entries)) ->
            map (fun kr => Key (snd kr))
              (omap (latestOf E) (map (fun k => (k, entriesOf k entries)) ks)) = ks /\
            List.Forall (represents entries)
              (map snd (omap (latestOf E) (map (fun k => (k, entriesOf k entries)) ks))))
    as H.
  { induction ks as [|k ks IH]; intros Hks; [split; constructor|].
    destruct (latestOf_represents entries k) as (ex & row & Heq & Hkey & Hrep);
      [apply Hks; now left|].
    destruct IH as [IH1 IH2]; [intros k' Hk'; apply Hks; now right|].
    cbn [List.map]. rewrite (omap_cons_Some _ _ _ _ Heq). cbn [List.map snd].
    split; [now rewrite Hkey, IH1|]. constructor; assumption. }
  apply H. intros k Hk. now apply firstOccurrences_In.
Qed.

End Grouping.

Section ListAllVersions.

Context (E : Js.Engine).

(** The rows of a version listing that the backend answers with [r]. *)
Lemma listAllVersions_files (env : Env) (path : option string) (page : option Z)
    (saveNextToken : bool) (w : World.t) (r : S3.Output) :
  FilesState.s3 (World.state w) <> None ->
  (forall cmd, send_answer env (World.calls w) cmd = inr r) ->
  let p := default (FilesState.path (World.state w)) path in
  exists w',
    listAllVersions E env path page saveNextToken w = (Ok tt, w') /\
    FilesState.files (World.state w') =
      foldersOf p (now env) (default [] (S3.CommonPrefixes r)) ++
      map snd (latestObjects E (now env) p
                 (default [] (S3.Versions r) ++ default [] (S3.DeleteMarkers r))).
Proof.
  intros Hinit Hans p.
  unfold listAllVersions, assertIsInitialized, bind, getState.
  destruct (FilesState.s3 (World.state w)) eqn:Hs3; [|congruence].
  cbn [ret]. fold p.
  set (tok := truthy _).
  destruct (match tok with
            | Some t => (Js.split "::" t !! 0%nat, Js.split "::" t !! 1%nat)
            | None => (Some ""%string, Some ""%string)
            end) as [nextKey nextVersion].
  unfold setCursorPage, modifyState, modify, send. cbn [World.calls World.set_state].
  rewrite Hans.
  destruct saveNextToken;
    [destruct (String.eqb _ "::")|];
    eexists; (split; [reflexivity|]); reflexivity.
Qed.


End ListAllVersions.

(** ** Concrete data for the scenarios *)

Definition date (ref : positive) (time : Z) : Date :=
  {| date_ref := ref; getTime := time |}.

Definition item (key : string) (versionId : option string) (size : option Z)
    (lastModified : Date) : S3.Item :=
  {| S3.Key := key; S3.VersionId := versionId; S3.Size := size;
     S3.LastModified := Some lastModified; S3.IsLatest := None |}.

Definition no_output : S3.Output :=
  {| S3.Contents := None; S3.CommonPrefixes := None; S3.KeyCount := None;
     S3.NextContinuationToken := None; S3.Versions := None;
     S3.DeleteMarkers := None; S3.NextKeyMarker := None;
     S3.NextVersionIdMarker := None; S3.IsTruncated := None |}.

(** A backend that answers every command with [r]. *)
Definition env_answering (r : S3.Output) : Env :=
  {| send_answer := fun _ _ => inr r;
     paginator_pages := fun _ _ _ => [inr r];
     now := date 1 1000 |}.

Definition test_config : Config :=
  {| altObjBrowserPagingEnabled := false;
     altObjBrowserPagingThreshold := 10000;
     DEFAULT_PAGE_LIMIT := 25 |}.

(** The store after [init] on a fresh state. *)
Definition world_ready : World.t :=
  (init "access" "secret" "bucket" "https://gateway" "/" true
     (World_new test_config None)).2.

(** Scenario B: three versions of [doc.txt] and a delete marker that is the
    most recent entry. *)
Definition scenarioB_response : S3.Output :=
  {| S3.Versions :=
       Some [item "doc.txt" (Some "v1") (Some 10) (date 11 100);
             item "doc.txt" (Some "v2") (Some 20) (date 12 200);
             item "doc.txt" (Some "v3") (Some 30) (date 13 300)];
     S3.DeleteMarkers := Some [item "doc.txt" (Some "v4") None (date 14 400)];
     S3.Contents := None; S3.CommonPrefixes := None; S3.KeyCount := None;
     S3.NextContinuationToken := None; S3.NextKeyMarker := None;
     S3.NextVersionIdMarker := None; S3.IsTruncated := None |}.


(** Scenario B evaluated, whatever the engine: one row, a delete marker,
    holding the four entries. *)
Example scenarioB_rows (E : Js.Engine) :
  exists row,
    FilesState.files
      (World.state
         (listAllVersions E (env_answering scenarioB_response) None None false
            world_ready).2) = [row] /\
    Key row = "doc.txt"%string /\
    isDeleteMarker row = Some true /\
    (length <$> Versions row) = Some 4%nat.
Proof.
  destruct (listAllVersions_files E (env_answering scenarioB_response)
              None None false world_ready scenarioB_response)
    as (w' & Hrun & Hfiles); [discriminate|reflexivity|].
  destruct (latestObjects_rows E (date 1 1000) ""
              (default [] (S3.Versions scenarioB_response) ++
               default [] (S3.DeleteMarkers scenarioB_response)))
    as [Hkeys Hrows].
  rewrite Hrun. cbn [snd]. rewrite Hfiles. cbn [foldersOf default S3.CommonPrefixes
    scenarioB_response omap list_omap app now env_answering FilesState.path
    World.state world_ready].
  change (FilesState.path _) with ""%string.
  set (rows := latestObjects E (date 1 1000) "" _) in *.
  change (firstOccurrences _) with ["doc.txt"%string] in Hkeys.
  destruct rows as [|[k row] [|? ?]]; try discriminate.
  exists row. split; [reflexivity|].
  injection Hkeys as Hkey. split; [exact Hkey|].
  apply Forall_inv in Hrows. cbn [snd] in Hrows.
  destruct Hrows as (top & rest & HV & Hperm & _ & Hmax & _ & HDM).
  rewrite Hkey in Hperm, Hmax. rewrite HV, HDM.
  set (group := entriesOf _ _) in *. vm_compute in group. subst group.
  split.
  - assert (In top (top :: rest)) as Hin by now left.
    apply (Permutation_in _ Hperm) in Hin.
    rewrite List.Forall_forall in Hmax.
    destruct Hin as [<-|[<-|[<-|[<-|[]]]]]; try reflexivity; exfalso.
    all: match type of Hmax with
         | forall x, In x [_; _; _; ?m] -> _ => specialize (Hmax m)
         end.
    all: vm_compute in Hmax; apply Hmax; [do 3 right; now left|reflexivity].
  - apply Permutation_length in Hperm. simpl in Hperm. simpl. now rewrite Hperm.
Qed.

(** ** Listing refresh: [processFetchedObjects] *)

Lemma List_filter_perm {A} (p : A -> bool) (l l' : list A) :
  Permutation l l' -> Permutation (List.filter p l) (List.filter p l').
Proof.
  induction 1 as [|x l l' H IH|x y l|l l' l'' H1 IH1 H2 IH2]; simpl.
  - constructor.
  - destruct (p x); [now constructor|exact IH].
  - destruct (p x), (p y); try reflexivity. apply perm_swap.
  - now transitivity (List.filter p l').
Qed.

Section ProcessFetchedObjects.

Context (E : Js.Engine).

(** The refreshed [files]: the folders of the common prefixes, then the
    visible entries of the sorted [Contents]. *)
Lemma processFetchedObjects_files (now : Date) (path : string)
    (Contents : option (list S3.Item)) (CommonPrefixes : option (list S3.CommonPrefix))
    (w : World.t) :
  processFetchedObjects E now path Contents CommonPrefixes w =
  (Ok tt,
   World.set_state
     (FilesState.set_files
        (foldersOf path now (default [] CommonPrefixes) ++
         List.filter isFileVisible
           (map (makeFileRelative path)
              (Js.sort E _ compareLastModified (default [] Contents))))
        (FilesState.set_path path (World.state w))) w).
Proof. reflexivity. Qed.

Lemma foldersOf_folders (path : string) (now : Date) (prefixes : list S3.CommonPrefix) :
  List.Forall (fun f => type f = Some type_folder) (foldersOf path now prefixes).
Proof.
  induction prefixes as [|[[p|]] ps IH]; simpl; [constructor| |exact IH].
  constructor; [reflexivity|exact IH].
Qed.

Lemma relative_files (path : string) (l : list S3.Item) :
  List.Forall (fun f => type f = Some type_file)
    (List.filter isFileVisible (map (makeFileRelative path) l)).
Proof.
  apply List.Forall_forall. intros f Hf.
  apply List.filter_In in Hf as [Hf _].
  apply in_map_iff in Hf as (x & <- & _). reflexivity.
Qed.

(** Every entry has a [LastModified], and two entries share a time value
    only when they share the [Date] object: no ties. *)
Definition tieFree (l : list S3.Item) : Prop :=
  forall a b, In a l -> In b l ->
    exists da db,
      S3.LastModified a = Some da /\ S3.LastModified b = Some db /\
      (Date_same da db = true <-> getTime da = getTime db).

Definition timeOfItem (x : S3.Item) : Z :=
  match S3.LastModified x with
  | Some d => getTime d
  | None => 0
  end.

Lemma compareLastModified_sign (l : list S3.Item) (a b : S3.Item) :
  tieFree l -> In a l -> In b l ->
  (compareLastModified a b = 0 <-> timeOfItem a = timeOfItem b) /\
  (compareLastModified a b < 0 <-> timeOfItem a < timeOfItem b) /\
  (compareLastModified a b > 0 <-> timeOfItem a > timeOfItem b).
Proof.
  intros Hl Ha Hb. destruct (Hl a b Ha Hb) as (da & db & Hda & Hdb & Hsame).
  unfold compareLastModified, timeOfItem, Date_lt. rewrite Hda, Hdb.
  destruct (Date_same da db).
  - assert (getTime da = getTime db) by now apply Hsame. lia.
  - assert (getTime da <> getTime db) by (intros Heq; apply Hsame in Heq; discriminate).
    destruct (Z.ltb_spec (getTime da) (getTime db)); lia.
Qed.

Lemma tieFree_consistent (l : list S3.Item) :
  tieFree l -> Js.consistent compareLastModified l.
Proof.
  intros Hl.
  pose proof (compareLastModified_sign l) as S.
  repeat split.
  - intros a Ha. now apply (S a a Hl Ha Ha).
  - intros a b Ha Hb H.
    destruct (S a b Hl Ha Hb) as (Hab & _), (S b a Hl Hb Ha) as (Hba & _).
    apply Hba. symmetry. now apply Hab.
  - intros a b c Ha Hb Hc H1 H2.
    destruct (S a b Hl Ha Hb) as (Hab & _), (S b c Hl Hb Hc) as (Hbc & _),
      (S a c Hl Ha Hc) as (Hac & _).
    apply Hac. apply Hab in H1. apply Hbc in H2. congruence.
  - intros a b c Ha Hb Hc H1 H2.
    destruct (S a b Hl Ha Hb) as (_ & Hab & _), (S b c Hl Hb Hc) as (_ & Hbc & _),
      (S a c Hl Ha Hc) as (_ & Hac & _).
    apply Hac. apply Hab in H1. apply Hbc in H2. lia.
  - intros a b c Ha Hb Hc H1 H2.
    destruct (S a b Hl Ha Hb) as (_ & _ & Hab), (S b c Hl Hb Hc) as (_ & _ & Hbc),
      (S a c Hl Ha Hc) as (_ & _ & Hac).
    apply Hac. apply Hab in H1. apply Hbc in H2. lia.
Qed.

(** Without ties the file rows are in ascending order of [LastModified],
    whatever the engine. *)
Lemma processFetchedObjects_sorted (now : Date) (path : string)
    (Contents : list S3.Item) (CommonPrefixes : option (list S3.CommonPrefix))
    (w : World.t) :
  tieFree Contents ->
  exists folders rows,
    FilesState.files
      (World.state (processFetchedObjects E now path (Some Contents) CommonPrefixes w).2)
      = folders ++ rows /\
    folders = foldersOf path now (default [] CommonPrefixes) /\
    List.Forall (fun f => type f = Some type_folder) folders /\
    List.Forall (fun f => type f = Some type_file) rows /\
    Permutation rows (List.filter isFileVisible (map (makeFileRelative path) Contents)) /\
    StronglySorted (fun a b => timeOf a <= timeOf b) rows.
Proof.
  intros Hl. rewrite processFetchedObjects_files. simpl.
  eexists; eexists. split; [reflexivity|]. split; [reflexivity|].
  split; [apply foldersOf_folders|]. split; [apply relative_files|].
  rewrite (Js.sort_consistent E _ _ _ (tieFree_consistent _ Hl)).
  split.
  - apply List_filter_perm, Permutation_map, isort_perm.
  - pose proof (isort_sorted compareLastModified Contents (tieFree_consistent _ Hl)) as Hs.
    assert (forall x, In x (Js.isort compareLastModified Contents) -> In x Contents) as Hin.
    { intros x. apply Permutation_in, isort_perm. }
    induction Hs as [|x xs Hs IH Hall]; simpl; [constructor|].
    assert (StronglySorted (fun a b => timeOf a <= timeOf b)
              (List.filter isFileVisible (map (makeFileRelative path) xs))) as IH'.
    { apply IH. intros y Hy. apply Hin. now right. }
    destruct (isFileVisible (makeFileRelative path x)); [|exact IH'].
    constructor; [exact IH'|].
    apply List.Forall_forall. intros f Hf.
    apply List.filter_In in Hf as [Hf _].
    apply in_map_iff in Hf as (y & <- & Hy).
    rewrite List.Forall_forall in Hall. specialize (Hall y Hy).
    destruct (compareLastModified_sign Contents x y Hl) as (H0 & Hlt & Hgt);
      [apply Hin; now left|apply Hin; now right|].
    unfold timeOf, timeOfItem in *. simpl. lia.
Qed.

End ProcessFetchedObjects.

(** Two entries with the same modification time, each with its own [Date]
    object, as a listing response delivers them. *)
Definition tie_a : S3.Item := item "a.txt" None (Some 1) (date 11 100).
Definition tie_b : S3.Item := item "b.txt" None (Some 1) (date 12 100).

(** The comparator does not see the tie: it answers [1] both ways, so it
    is not a consistent comparator. *)
Lemma compareLastModified_tie :
  compareLastModified tie_a tie_b = 1 /\ compareLastModified tie_b tie_a = 1 /\
  ~ Js.consistent compareLastModified [tie_a; tie_b].
Proof.
  split; [reflexivity|]. split; [reflexivity|].
  intros (Hrefl & _ & _ & _ & Hgt).
  specialize (Hgt tie_a tie_b tie_a). specialize (Hrefl tie_a).
  simpl in Hgt, Hrefl. change (compareLastModified tie_a tie_b) with 1 in Hgt.
  change (compareLastModified tie_b tie_a) with 1 in Hgt.
  rewrite Hrefl in Hgt; [|now left]. 
  assert (0 > 0); [|lia]. apply Hgt; auto; lia.
Qed.

(** C4.  On the tie [tie_a], [tie_b] the order of the refreshed rows is
    decided by the engine: the insertion sort keeps the response order, the
    engine whose loop exits on [cmp(swap, item) <= 0] reverses it. *)
Theorem processFetchedObjects_tie_order :
  map Key
    (FilesState.files
       (World.state
          (processFetchedObjects engine_lt (date 1 1000) ""
             (Some [tie_a; tie_b]) None world_ready).2))
    = ["a.txt"; "b.txt"]%string /\
  map Key
    (FilesState.files
       (World.state
          (processFetchedObjects engine_le (date 1 1000) ""
             (Some [tie_a; tie_b]) None world_ready).2))
    = ["b.txt"; "a.txt"]%string.
Proof. split; reflexivity. Qed.

(** ** [initList] *)

(** [response.NextContinuationToken] is set: the loop goes on. *)
Definition hasNext (r : S3.Output) : Prop :=
  truthy (S3.NextContinuationToken r) <> None.

(** The batches the loop of [initList] drains: up to and including the
    first one without a continuation token. *)
Fixpoint drained (rs : list S3.Output) : list S3.Output :=
  match rs with
  | [] => []
  | r :: rest =>
      r :: match truthy (S3.NextContinuationToken r) with
           | Some _ => drained rest
           | None => []
           end
  end.

Definition sumKeyCount (rs : list S3.Output) : Z :=
  fold_right (fun r acc => default 0 (S3.KeyCount r) + acc) 0 rs.

(** [files] as [processFetchedObjects] computes it from one response. *)
Definition filesOf (E : Js.Engine) (now : Date) (path : string) (r : S3.Output)
    : list BrowserObject :=
  foldersOf path now (default [] (S3.CommonPrefixes r)) ++
  List.filter isFileVisible
    (map (makeFileRelative path)
       (Js.sort E _ compareLastModified (default [] (S3.Contents r)))).

Section InitList.

Context (E : Js.Engine).

Lemma initList_pages_ok (env : Env) (path : string) (rs : list S3.Output)
    (token : option string) (iteration keyCount : Z) (w : World.t) :
  exists w',
    initList_pages E env path (map inr rs) token iteration keyCount w =
      (Ok (keyCount + sumKeyCount (drained rs)), w').
Proof.
  revert token iteration keyCount w.
  induction rs as [|r rs IH]; intros token iteration keyCount w; simpl.
  - eexists. unfold ret. now rewrite Z.add_0_r.
  - unfold bind, getState, modify. simpl.
    destruct (iteration =? 1); simpl;
      destruct (truthy (S3.NextContinuationToken r)) as [next|]; simpl.
    all: try match goal with
             | |- context [initList_pages _ _ _ (map inr _) ?t ?i ?k ?w0] =>
                 destruct (IH t i k w0) as (w' & ->); eexists;
                 now rewrite Z.add_assoc
             end.
    all: eexists; unfold ret; now rewrite Z.add_0_r.
Qed.

Lemma initList_pages_error (env : Env) (path : string) (rs : list S3.Output)
    (e : Exn) (rest : list (Exn + S3.Output))
    (token : option string) (iteration keyCount : Z) (w : World.t) :
  1 <= iteration -> List.Forall hasNext rs ->
  exists w',
    initList_pages E env path (map inr rs ++ inl e :: rest) token iteration keyCount w =
      (Throw e, w') /\
    FilesState.files (World.state w') =
      match rs with
      | r1 :: _ =>
          if iteration =? 1 then filesOf E (now env) path r1
          else FilesState.files (World.state w)
      | [] => FilesState.files (World.state w)
      end.
Proof.
  revert token iteration keyCount w.
  induction rs as [|r rs IH]; intros token iteration keyCount w Hit Hnext; simpl.
  - eexists. split; reflexivity.
  - apply Forall_inv_tail in Hnext as Htl. apply Forall_inv in Hnext.
    unfold hasNext in Hnext.
    unfold bind, getState, modify. simpl.
    destruct (Z.eqb_spec iteration 1) as [->|Hne]; simpl;
      destruct (truthy (S3.NextContinuationToken r)) as [next|]; try congruence; simpl.
    + edestruct (IH (Some next) (1 + 1) (keyCount + default 0 (S3.KeyCount r)))
        as (w' & -> & Hfiles); [lia|exact Htl|].
      eexists. split; [reflexivity|]. rewrite Hfiles.
      destruct rs; reflexivity.
    + edestruct (IH (Some next) (iteration + 1) (keyCount + default 0 (S3.KeyCount r)))
        as (w' & -> & Hfiles); [lia|exact Htl|].
      eexists. split; [reflexivity|]. rewrite Hfiles.
      destruct (Z.eqb_spec (iteration + 1) 1); [lia|].
      destruct rs; reflexivity.
Qed.

(** C9 (amended).  When the paginator delivers the batches [rs], [initList]
    sets [totalObjectCount] to the sum of [KeyCount] over the batches it
    drains, less one exactly when the browsed prefix is not empty. *)
Theorem initList_totalObjectCount (env : Env) (path : option string) (w : World.t)
    (rs : list S3.Output) :
  FilesState.s3 (World.state w) <> None ->
  let p := default (FilesState.path (World.state w)) path in
  paginator_pages env (World.calls w) (FilesState.bucket (World.state w)) p =
    map inr rs ->
  exists w',
    initList E env path w = (Ok tt, w') /\
    FilesState.totalObjectCount (World.state w') =
      sumKeyCount (drained rs) - (if String.eqb p "" then 0 else 1).
Proof.
  intros Hinit p Hpages.
  unfold initList, assertIsInitialized, bind, getState, get.
  destruct (FilesState.s3 (World.state w)) eqn:Hs3; [|congruence].
  cbn [ret]. fold p. rewrite Hpages.
  destruct (initList_pages_ok env p rs None 1 0 w) as (w' & ->).
  eexists. split; [reflexivity|]. cbn.
  destruct p; cbn; lia.
Qed.

End InitList.

(** *** Scenario A: a bucket with the keys [a/], [a/x.txt], [b.txt] *)

(** The answer of an S3-compatible backend to a delimited listing of the
    keys of a bucket: a key whose remainder after the prefix contains the
    delimiter is rolled up into a common prefix, every other key that
    starts with the prefix (the key equal to the prefix included) is an
    entry of [Contents]; [KeyCount] counts both. *)
Fixpoint bucket_scan (prefix : string) (keys : list string) (n : positive)
    (contents : list S3.Item) (prefixes : list string) : list S3.Item * list string :=
  match keys with
  | [] => (contents, prefixes)
  | key :: rest =>
      if String.prefix prefix key then
        match Js.split "/" (Js.slice_from (String.length prefix) key) with
        | dir :: _ :: _ =>
            let cp := prefix +:+ dir +:+ "/" in
            bucket_scan prefix rest (Pos.succ n) contents
              (if Js.arr_includes cp prefixes then prefixes else prefixes ++ [cp])
        | _ =>
            bucket_scan prefix rest (Pos.succ n)
              (contents ++ [item key None (Some 0) (date n (Z.pos n))]) prefixes
        end
      else bucket_scan prefix rest (Pos.succ n) contents prefixes
  end.

Definition bucket_list (keys : list string) (prefix : string) : S3.Output :=
  let '(contents, prefixes) := bucket_scan prefix keys 1%positive [] [] in
  {| S3.Contents := Some contents;
     S3.CommonPrefixes := Some (map (fun p => {| S3.Prefix := Some p |}) prefixes);
     S3.KeyCount := Some (Z.of_nat (length contents + length prefixes));
     S3.NextContinuationToken := None; S3.Versions := None;
     S3.DeleteMarkers := None; S3.NextKeyMarker := None;
     S3.NextVersionIdMarker := None; S3.IsTruncated := None |}.

Definition env_bucket (keys : list string) : Env :=
  {| send_answer := fun _ cmd =>
       match cmd with
       | S3.ListObjectsV2Command _ _ prefix _ _ => inr (bucket_list keys prefix)
       | _ => inr no_output
       end;
     paginator_pages := fun _ _ prefix => [inr (bucket_list keys prefix)];
     now := date 1000 1000 |}.

Definition scenarioA_bucket : list string := ["a/"; "a/x.txt"; "b.txt"]%string.

Definition rowsOf (w : World.t) : list (string * option FileType) :=
  map (fun f => (Key f, type f)) (FilesState.files (World.state w)).

(** Browsing the root shows the folder [a] and the file [b.txt]. *)
Example scenarioA_root :
  let w' := (initList engine_lt (env_bucket scenarioA_bucket) (Some "") world_ready).2 in
  rowsOf w' = [("a", Some type_folder); ("b.txt", Some type_file)]%string /\
  FilesState.totalObjectCount (World.state w') = 2.
Proof. split; reflexivity. Qed.

Lemma initList_totalObjectCount_witness :
  exists w',
    initList engine_lt (env_bucket scenarioA_bucket) (Some "a/") world_ready = (Ok tt, w') /\
    FilesState.totalObjectCount (World.state w') =
      sumKeyCount (drained [bucket_list scenarioA_bucket "a/"]) -
      (if String.eqb "a/" "" then 0 else 1).
Proof.
  apply (initList_totalObjectCount engine_lt (env_bucket scenarioA_bucket)
           (Some "a/"%string) world_ready [bucket_list scenarioA_bucket "a/"]);
    [discriminate|reflexivity].
Defined.

(** Browsing [a/]: the backend lists [a/] and [a/x.txt], so [KeyCount] is
    2; the only row is [x.txt] and the count after the decrement is 1, not
    0. *)
Lemma scenarioA_count_is_not_zero :
  let w' := (initList engine_lt (env_bucket scenarioA_bucket) (Some "a/") world_ready).2 in
  rowsOf w' = [("x.txt", Some type_file)]%string /\
  FilesState.totalObjectCount (World.state w') = 1 /\
  FilesState.totalObjectCount (World.state w') <> 0.
Proof. split; [reflexivity|]. split; [reflexivity|discriminate]. Qed.

(** ** Listing errors *)

Section ListingErrors.

Context (E : Js.Engine).

(** C6 (amended).  A listing attempt whose transport call fails aborts
    with that error.  [listCustom], [listByToken] and [listAllVersions]
    leave [files] as it was; so does [initList] when its first batch fails.
    When a later batch fails, [initList] has already replaced [files] by
    the whole first batch. *)
Theorem listing_error_files (env : Env) (w : World.t) (e : Exn) :
  FilesState.s3 (World.state w) <> None ->
  ((forall cmd, send_answer env (World.calls w) cmd = inl e) ->
   (forall path page saveNextToken, exists w',
      listCustom E env path page saveNextToken w = (Throw e, w') /\
      FilesState.files (World.state w') = FilesState.files (World.state w)) /\
   (forall path key continuationToken, exists w',
      listByToken E env path key continuationToken w = (Throw e, w') /\
      FilesState.files (World.state w') = FilesState.files (World.state w)) /\
   (forall path page saveNextToken, exists w',
      listAllVersions E env path page saveNextToken w = (Throw e, w') /\
      FilesState.files (World.state w') = FilesState.files (World.state w))) /\
  (forall path rs rest,
     let p := default (FilesState.path (World.state w)) path in
     paginator_pages env (World.calls w) (FilesState.bucket (World.state w)) p =
       map inr rs ++ inl e :: rest ->
     List.Forall hasNext rs ->
     exists w',
       initList E env path w = (Throw e, w') /\
       FilesState.files (World.state w') =
         match rs with
         | [] => FilesState.files (World.state w)
         | r1 :: _ => filesOf E (now env) p r1
         end).
Proof.
  intros Hinit.
  destruct (FilesState.s3 (World.state w)) eqn:Hs3; [clear Hinit|congruence].
  split; [intros Hans; repeat split|].
  - intros path page save.
    unfold listCustom, assertIsInitialized, bind, getState, send. rewrite Hs3.
    cbn [ret]. rewrite Hans. eexists. split; reflexivity.
  - intros path key tok.
    unfold listByToken, assertIsInitialized, bind, getState, send. rewrite Hs3.
    cbn [ret]. rewrite Hans. eexists. split; reflexivity.
  - intros path page save.
    unfold listAllVersions, assertIsInitialized, bind, getState. rewrite Hs3.
    cbn [ret].
    set (tok := truthy _).
    destruct (match tok with
              | Some t => (Js.split "::" t !! 0%nat, Js.split "::" t !! 1%nat)
              | None => (Some ""%string, Some ""%string)
              end) as [nextKey nextVersion].
    unfold setCursorPage, modifyState, modify, send.
    cbn [World.calls World.set_state]. rewrite Hans.
    eexists. split; reflexivity.
  - intros path rs rest p Hpages Hnext.
    unfold initList, assertIsInitialized, bind, getState, get. rewrite Hs3.
    cbn [ret]. fold p. rewrite Hpages.
    destruct (initList_pages_error E env p rs e rest None 1 0 w) as (w' & -> & Hfiles);
      [lia|exact Hnext|].
    eexists. split; [reflexivity|]. rewrite Hfiles. destruct rs; reflexivity.
Qed.

End ListingErrors.

Definition transport_error : Exn := Error "NetworkError" "connection reset".

(** A backend whose every call fails. *)
Definition env_failing : Env :=
  {| send_answer := fun _ _ => inl transport_error;
     paginator_pages := fun _ _ _ => [inl transport_error];
     now := date 1 1000 |}.

(** A first batch that announces a second one, which then fails. *)
Definition first_batch : S3.Output :=
  {| S3.Contents := Some [item "a.txt" None (Some 1) (date 11 100)];
     S3.CommonPrefixes := None; S3.KeyCount := Some 1;
     S3.NextContinuationToken := Some "token-2"%string;
     S3.Versions := None; S3.DeleteMarkers := None; S3.NextKeyMarker := None;
     S3.NextVersionIdMarker := None; S3.IsTruncated := None |}.

Definition env_second_batch_fails : Env :=
  {| send_answer := fun _ _ => inl transport_error;
     paginator_pages := fun _ _ _ => [inr first_batch; inl transport_error];
     now := date 1 1000 |}.

Lemma listing_error_files_witness :
  let E := engine_lt in
  let env := env_second_batch_fails in
  let w := world_ready in
  (exists w',
     listCustom E env None 1 true w = (Throw transport_error, w') /\
     FilesState.files (World.state w') = FilesState.files (World.state w)) /\
  (exists w',
     listAllVersions E env None None true w = (Throw transport_error, w') /\
     FilesState.files (World.state w') = FilesState.files (World.state w)) /\
  (exists w',
     initList E env None w = (Throw transport_error, w') /\
     FilesState.files (World.state w') = filesOf E (now env) "" first_batch).
Proof.
  destruct (listing_error_files engine_lt env_second_batch_fails world_ready
              transport_error) as [Hsend Hpages]; [discriminate|].
  destruct Hsend as (Hcustom & _ & Hversions); [reflexivity|].
  split; [apply Hcustom|]. split; [apply Hversions|].
  apply (Hpages None [first_batch] []); [reflexivity|].
  repeat constructor. discriminate.
Defined.

(** [initList] whose second batch fails: the attempt aborts with the
    transport error, yet [files] is no longer the snapshot it held before. *)
Lemma initList_second_batch_error :
  let w := world_ready in
  let '(result, w') := initList engine_lt env_second_batch_fails None w in
  result = Throw transport_error /\
  FilesState.files (World.state w) = [] /\
  map Key (FilesState.files (World.state w')) = ["a.txt"%string] /\
  FilesState.files (World.state w') <> FilesState.files (World.state w).
Proof. repeat split; discriminate. Qed.

(** ** [deleteObject] without a file *)

(** C10.  [deleteObject] with [file] undefined returns at once: nothing is
    sent and the state is untouched, whether or not the client is
    initialised. *)
Theorem deleteObject_undefined (E : Js.Engine) (env : Env) (path : string)
    (isFolder shouldRefresh : bool) (w : World.t) :
  deleteObject E env path None isFolder shouldRefresh w = (Ok tt, w).
Proof. reflexivity. Qed.

(** ** Upload: the duplicate scan *)

Section DuplicateScan.

Variable fileNames : list string.

(** A traversed pair collides with the listed files. *)
Definition collides (pf : string * File) : bool :=
  hasDuplicate fileNames (fst pf) (snd pf).

Definition nameOf (pf : string * File) : string := fst pf +:+ file_name (snd pf).

Lemma scanDuplicates_grows (ign : bool) (traversal : list (string * File)) (acc : Scan) :
  (length (duplicateFiles acc) <=
   length (duplicateFiles (scanDuplicates fileNames ign traversal acc)))%nat.
Proof.
  revert acc. induction traversal as [|[path file] rest IH]; intros acc; simpl; [lia|].
  destruct (negb ign && (length (duplicateFiles acc) <? 5)%nat &&
            hasDuplicate fileNames path file).
  - destruct ((length (duplicateFiles acc ++ [path +:+ file_name file]) =? 5)%nat ||
              (traversedCount acc =? 100)).
    + simpl. rewrite length_app. simpl. lia.
    + etransitivity; [|apply IH]. simpl. rewrite length_app. simpl. lia.
  - etransitivity; [|apply IH]. simpl. lia.
Qed.

Lemma scanDuplicates_cap (ign : bool) (traversal : list (string * File)) (acc : Scan) :
  (length (duplicateFiles acc) <= 5)%nat ->
  (length (duplicateFiles (scanDuplicates fileNames ign traversal acc)) <= 5)%nat.
Proof.
  revert acc. induction traversal as [|[path file] rest IH]; intros acc Hacc; simpl; [lia|].
  destruct (negb ign && (length (duplicateFiles acc) <? 5)%nat &&
            hasDuplicate fileNames path file) eqn:Hc.
  - apply andb_prop in Hc as [Hc _]. apply andb_prop in Hc as [_ Hlt].
    apply Nat.ltb_lt in Hlt.
    destruct ((length (duplicateFiles acc ++ [path +:+ file_name file]) =? 5)%nat ||
              (traversedCount acc =? 100)).
    + simpl. rewrite length_app. simpl. lia.
    + apply IH. simpl. rewrite length_app. simpl. lia.
  - apply IH. simpl. lia.
Qed.

Lemma scanDuplicates_finds (traversal : list (string * File)) (acc : Scan) :
  List.Exists (fun pf => collides pf = true) traversal ->
  (0 < length (duplicateFiles (scanDuplicates fileNames false traversal acc)))%nat.
Proof.
  revert acc. induction traversal as [|[path file] rest IH]; intros acc Hex.
  - inversion Hex.
  - destruct (duplicateFiles acc) as [|d ds] eqn:Hd.
    + simpl. rewrite Hd. simpl.
      destruct (hasDuplicate fileNames path file) eqn:Hdup.
      * destruct (traversedCount acc =? 100); simpl; [lia|].
        eapply Nat.lt_le_trans; [|apply scanDuplicates_grows]. simpl. lia.
      * apply IH. inversion Hex as [? ? H|]; subst; [|assumption].
        unfold collides in H. simpl in H. congruence.
    + eapply Nat.lt_le_trans; [|apply scanDuplicates_grows]. rewrite Hd. simpl. lia.
Qed.

Lemma scanDuplicates_names (ign : bool) (traversal : list (string * File)) (acc : Scan) :
  forall name,
    In name (duplicateFiles (scanDuplicates fileNames ign traversal acc)) ->
    In name (duplicateFiles acc) \/
    exists pf, In pf traversal /\ collides pf = true /\ nameOf pf = name.
Proof.
  revert acc. induction traversal as [|[path file] rest IH]; intros acc name Hin;
    simpl in Hin; [now left|].
  assert (forall acc',
            (forall n, In n (duplicateFiles acc') ->
                       In n (duplicateFiles acc) \/
                       (hasDuplicate fileNames path file = true /\
                        n = path +:+ file_name file)) ->
            In name (duplicateFiles (scanDuplicates fileNames ign rest acc')) ->
            In name (duplicateFiles acc) \/
            exists pf, In pf ((path, file) :: rest) /\ collides pf = true /\ nameOf pf = name)
    as Hstep.
  { intros acc' Hacc' H. apply IH in H as [H|(pf & Hpf & Hc & Hn)].
    - apply Hacc' in H as [H|[Hdup ->]]; [now left|].
      right. exists (path, file). split; [now left|]. split; [exact Hdup|reflexivity].
    - right. exists pf. split; [now right|]. split; assumption. }
  destruct (negb ign && (length (duplicateFiles acc) <? 5)%nat &&
            hasDuplicate fileNames path file) eqn:Hc.
  - apply andb_prop in Hc as [_ Hdup].
    assert (forall n, In n (duplicateFiles acc ++ [path +:+ file_name file]) ->
                      In n (duplicateFiles acc) \/
                      (hasDuplicate fileNames path file = true /\
                       n = path +:+ file_name file)) as Hpush.
    { intros n Hn. apply in_app_iff in Hn as [Hn|[<-|[]]]; auto. }
    destruct ((length (duplicateFiles acc ++ [path +:+ file_name file]) =? 5)%nat ||
              (traversedCount acc =? 100)).
    + simpl in Hin. apply Hpush in Hin as [H|[_ ->]]; [now left|].
      right. exists (path, file). split; [now left|]. split; [exact Hdup|reflexivity].
    + eapply Hstep; [|exact Hin]. simpl. exact Hpush.
  - eapply Hstep; [|exact Hin]. simpl. auto.
Qed.

End DuplicateScan.

(** With [ignoreDuplicate] false, a batch in which some traversed pair
    collides with the listed files is rejected as a whole: [upload] throws
    a [DuplicateUploadError] with between one and five names, each the name
    of a colliding pair, and the world is as before: nothing was enqueued
    and nothing was sent. *)
Lemma upload_duplicates_abort (env : Env) (traversal : list (string * File))
    (w : World.t) :
  FilesState.s3 (World.state w) <> None ->
  let fileNames := map Key (FilesState.files (World.state w)) in
  List.Exists (fun pf => collides fileNames pf = true) traversal ->
  exists dups,
    upload env traversal false w = (Throw (DuplicateUploadError dups), w) /\
    (1 <= length dups <= 5)%nat /\
    forall name, In name dups ->
      exists pf, In pf traversal /\ collides fileNames pf = true /\ nameOf pf = name.
Proof.
  intros Hinit fileNames Hex.
  unfold upload, assertIsInitialized, bind, getState.
  destruct (FilesState.s3 (World.state w)); [|congruence].
  cbn [ret]. fold fileNames.
  pose proof (scanDuplicates_finds fileNames traversal Scan_start Hex) as Hpos.
  pose proof (scanDuplicates_cap fileNames false traversal Scan_start) as Hcap.
  pose proof (scanDuplicates_names fileNames false traversal Scan_start) as Hnames.
  destruct (Nat.ltb_spec 0
              (length (duplicateFiles (scanDuplicates fileNames false traversal Scan_start))));
    [|lia].
  eexists. split; [reflexivity|]. split; [simpl in Hcap; lia|].
  intros name Hin. apply Hnames in Hin as [[]|Hin]. exact Hin.
Qed.

(** A file of [n] bytes. *)
Definition file_of (name : string) (n : Z) : File :=
  {| file_name := name; file_size := n |}.

(** Scenario C: six files, five of which are already listed. *)
Example scenarioC :
  let listed := ["f1"; "f2"; "f3"; "f4"; "f5"]%string in
  let batch :=
    [("", file_of "f1" 1); ("", file_of "f2" 1); ("", file_of "new" 1);
     ("", file_of "f3" 1); ("", file_of "f4" 1); ("", file_of "f5" 1)]%string in
  duplicateFiles (scanDuplicates listed false batch Scan_start) = listed.
Proof. reflexivity. Qed.

(** A batch of 151 files of which only the last collides with the listed
    [old.txt]. *)
Definition long_batch : list (string * File) :=
  (repeat (""%string, file_of "new.txt" 1) 150 ++ [(""%string, file_of "old.txt" 1)]).

(** Where the count of 100 does stop the scan: the 101st candidate
    collides, and the fifty candidates after it are not pulled. *)
Example scan_stops_at_101 :
  let batch :=
    repeat (""%string, file_of "new.txt" 1) 100 ++
    [(""%string, file_of "old.txt" 1)] ++
    repeat (""%string, file_of "new.txt" 1) 50 in
  let scan := scanDuplicates ["old.txt"%string] false batch Scan_start in
  pulled scan = 101%nat /\ duplicateFiles scan = ["old.txt"%string].
Proof. vm_compute. split; reflexivity. Qed.

(** The store listing the single file [old.txt]. *)
Definition world_listing_old : World.t :=
  (updateFiles ""
     [makeFileRelative "" (item "old.txt" None (Some 1) (date 11 100))]
     world_ready).2.

(** C2.  On [long_batch] the scan pulls all 151 candidates from the
    traversal before it reports the collision: the count of 100 is only
    looked at when the candidate at hand collides.  The batch is then
    rejected with the one colliding name. *)
Theorem scanDuplicates_beyond_100 :
  let scan := scanDuplicates ["old.txt"%string] false long_batch Scan_start in
  pulled scan = 151%nat /\
  duplicateFiles scan = ["old.txt"%string] /\
  upload (env_answering no_output) long_batch false world_listing_old =
    (Throw (DuplicateUploadError ["old.txt"%string]), world_listing_old).
Proof. vm_compute. repeat split; reflexivity. Qed.

(** ** Upload: the size ceiling *)

(** [state.uploading] after the entry for [key], if any, is spliced out. *)
Definition withoutKey (w : World.t) (key : string) : list nat :=
  match Js.findIndex (hasKey w key) (FilesState.uploading (World.state w)) with
  | Some index => Js.splice1 index (FilesState.uploading (World.state w))
  | None => FilesState.uploading (World.state w)
  end.

(** No entry of [state.uploading] for [key] is in progress. *)
Definition notUploading (w : World.t) (key : string) : Prop :=
  existsb (fun ref => hasKey w key ref && hasStatus w InProgress ref)
    (FilesState.uploading (World.state w)) = false.

(** C5 (amended).  On an initialised client, a file whose key is not
    already uploading is recorded at the end of [uploading].  Above 30 GiB
    the entry is [Failed] with [TooBig], no [Upload] is created and no link
    is chained; up to and including 30 GiB the entry is [InProgress] and
    holds a new [Upload] whose completion is chained.  Neither case sends
    anything itself. *)
Theorem enqueueUpload_size_ceiling (env : Env) (key : string) (body : File)
    (w : World.t) :
  FilesState.s3 (World.state w) <> None ->
  notUploading w key ->
  exists w' entry,
    enqueueUpload env key body w = (Ok tt, w') /\
    World.calls w' = World.calls w /\
    World.heap w' = World.heap w ++ [entry] /\
    FilesState.uploading (World.state w') = withoutKey w key ++ [length (World.heap w)] /\
    Key (base entry) = key /\ type (base entry) = Some type_file /\ Body entry = body /\
    (MAX_UPLOAD_SIZE < file_size body ->
       status entry = Failed /\ failedMessage entry = Some TooBig /\
       BrowserObject.upload (base entry) = None /\
       World.links w' = World.links w /\
       FilesState.uploadChain (World.state w') = FilesState.uploadChain (World.state w)) /\
    (file_size body <= MAX_UPLOAD_SIZE ->
       status entry = InProgress /\ failedMessage entry = None /\
       BrowserObject.upload (base entry) = Some (length (World.links w)) /\
       World.links w' =
         World.links w ++
           [{| link_key := key;
               link_prev := FilesState.uploadChain (World.state w);
               link_phase := Pending; link_aborted := false;
               link_listening := true |}] /\
       FilesState.uploadChain (World.state w') = Some (length (World.links w))).
Proof.
  intros Hinit Hfree. unfold notUploading in Hfree.
  unfold enqueueUpload, assertIsInitialized, bind, getState, get.
  destruct (FilesState.s3 (World.state w)); [|congruence].
  cbn [ret]. rewrite Hfree. unfold withoutKey, modify, setUploading, modifyState, modify.
  destruct (Z.ltb_spec MAX_UPLOAD_SIZE (file_size body)) as [Hbig|Hsmall];
    destruct (Js.findIndex (hasKey w key) (FilesState.uploading (World.state w)));
    cbn; eexists; eexists; (split; [reflexivity|]); cbn;
    repeat split; try reflexivity; intros; lia.
Qed.

Definition GiB : Z := 1024 * 1024 * 1024.

(** The boundary: a file of exactly 30 GiB is handed to the transport, one
    byte more is rejected. *)
Example enqueueUpload_boundary :
  let at_ceiling :=
    (enqueueUpload (env_answering no_output) "big.bin" (file_of "big.bin" (30 * GiB))
       world_ready).2 in
  let over :=
    (enqueueUpload (env_answering no_output) "big.bin" (file_of "big.bin" (30 * GiB + 1))
       world_ready).2 in
  (status <$> World.heap at_ceiling) = [InProgress] /\
  length (World.links at_ceiling) = 1%nat /\
  (status <$> World.heap over) = [Failed] /\
  (failedMessage <$> World.heap over) = [Some TooBig] /\
  World.links over = [] /\ World.calls over = [].
Proof. vm_compute. repeat split; reflexivity. Qed.

Lemma enqueueUpload_size_ceiling_witness :
  exists w' entry,
    enqueueUpload (env_answering no_output) "big.bin" (file_of "big.bin" (30 * GiB + 1))
      world_ready = (Ok tt, w') /\
    World.heap w' = [entry] /\
    status entry = Failed /\ failedMessage entry = Some TooBig /\
    World.links w' = [] /\ World.calls w' = [].
Proof.
  destruct (enqueueUpload_size_ceiling (env_answering no_output) "big.bin"
              (file_of "big.bin" (30 * GiB + 1)) world_ready)
    as (w' & entry & Hrun & Hcalls & Hheap & _ & _ & _ & _ & Hbig & _);
    [discriminate|reflexivity|].
  destruct Hbig as (Hstatus & Hmsg & _ & Hlinks & _); [vm_compute; reflexivity|].
  exists w', entry. repeat split; assumption.
Defined.

(** The store with an upload of [big.bin] in progress. *)
Definition world_uploading : World.t :=
  (enqueueUpload (env_answering no_output) "big.bin" (file_of "big.bin" 1) world_ready).2.

(** An oversize file whose key is already uploading is turned away with a
    notification: no entry is recorded for it, and nothing in [uploading]
    is [Failed]. *)
Lemma enqueueUpload_oversize_already_uploading :
  let '(result, w') :=
    enqueueUpload (env_answering no_output) "big.bin" (file_of "big.bin" (30 * GiB + 1))
      world_uploading in
  result = Ok tt /\
  World.heap w' = World.heap world_uploading /\
  FilesState.uploading (World.state w') = FilesState.uploading (World.state world_uploading) /\
  (status <$> World.heap w') = [InProgress] /\
  (failedMessage <$> World.heap w') = [None] /\
  World.notifications w' = [("big.bin is already uploading"%string, OBJECT_UPLOAD_ERROR)].
Proof. vm_compute. repeat split; reflexivity. Qed.

(** ** Invariants of the store operations *)

(** [c] keeps [I], whatever its outcome. *)
Definition preserves {A} (I : World.t -> Prop) (c : M A) : Prop :=
  forall w, I w -> I (c w).2.

Section Preserves.

Variable I : World.t -> Prop.

Lemma preserves_ret {A} (a : A) : preserves I (ret a).
Proof. intros w H. exact H. Qed.

Lemma preserves_throw {A} (e : Exn) : preserves I (@throw A e).
Proof. intros w H. exact H. Qed.

Lemma preserves_outOfFuel {A} : preserves I (@outOfFuel A).
Proof. intros w H. exact H. Qed.

Lemma preserves_get : preserves I get.
Proof. intros w H. exact H. Qed.

Lemma preserves_getState : preserves I getState.
Proof. intros w H. exact H. Qed.

Lemma preserves_bind {A B} (c : M A) (k : A -> M B) :
  preserves I c -> (forall a, preserves I (k a)) -> preserves I (bind c k).
Proof.
  intros Hc Hk w H. unfold bind. specialize (Hc w H).
  destruct (c w) as [[a| |] w']; simpl in *; [now apply Hk|exact Hc|exact Hc].
Qed.

Lemma preserves_catch {A} (c : M A) : preserves I c -> preserves I (catch c).
Proof.
  intros Hc w H. unfold catch. specialize (Hc w H).
  destruct (c w) as [[a| |] w']; exact Hc.
Qed.

Lemma preserves_forEach {A} (f : A -> M unit) (l : list A) :
  (forall x, preserves I (f x)) -> preserves I (forEach f l).
Proof.
  intros Hf. induction l as [|x l IH]; simpl; [apply preserves_ret|].
  apply preserves_bind; [apply Hf|intros _; exact IH].
Qed.

Lemma preserves_promiseAll_run (tasks : list (M unit)) (err : option Exn) :
  List.Forall (preserves I) tasks -> preserves I (promiseAll_run tasks err).
Proof.
  intros Ht. revert err. induction Ht as [|t ts Ht Hts IH]; intros err; simpl;
    [apply preserves_ret|].
  apply preserves_bind; [now apply preserves_catch|].
  intros [e|[]]; apply IH.
Qed.

Lemma preserves_rethrow (err : option Exn) : preserves I (rethrow err).
Proof. destruct err; [apply preserves_throw|apply preserves_ret]. Qed.

Lemma preserves_promiseAll (tasks : list (M unit)) :
  List.Forall (preserves I) tasks -> preserves I (promiseAll tasks).
Proof.
  intros Ht. apply preserves_bind; [now apply preserves_promiseAll_run|].
  intros err. apply preserves_rethrow.
Qed.

End Preserves.

(** The ways in which the operations write to the world.  [FramedBase]
    lists the writes of the listing operations; an invariant that stands
    them is kept by every listing.  [Framed] adds the writes to the upload
    entries and to the chain; an invariant that stands them all is kept by
    every operation except [clear]. *)
Record FramedBase (I : World.t -> Prop) : Prop := {
  framed_state : forall (f : FilesState.t -> FilesState.t) w,
    FilesState.uploadChain (f (World.state w)) = FilesState.uploadChain (World.state w) ->
    FilesState.uploading (f (World.state w)) = FilesState.uploading (World.state w) ->
    I w -> I (World.set_state (f (World.state w)) w);
  framed_calls : forall v w, I w -> I (World.set_calls v w);
  framed_notifications : forall v w, I w -> I (World.set_notifications v w);
  framed_uploadingModal : forall v w, I w -> I (World.set_uploadingModal v w);
  framed_localData : forall v w, I w -> I (World.set_localData v w)
}.

Record Framed (I : World.t -> Prop) : Prop := {
  framed_base : FramedBase I;
  framed_uploading : forall l w,
    I w -> I (World.set_state (FilesState.set_uploading l (World.state w)) w);
  framed_mutate : forall ref (f : UploadingBrowserObject -> UploadingBrowserObject) w,
    (forall o, type (base (f o)) = type (base o)) -> I w -> I (mutate ref f w).2;
  framed_push : forall obj w,
    type (base obj) = Some type_file -> I w -> I (pushUploading obj w).2;
  framed_abort : forall l w, I w -> I (abortUpload l w).2;
  framed_link : forall key w,
    I w ->
    I (World.set_state
         (FilesState.set_uploadChain (Some (length (World.links w))) (World.state w))
         (World.set_links
            (World.links w ++
               [{| link_key := key;
                   link_prev := FilesState.uploadChain (World.state w);
                   link_phase := Pending; link_aborted := false;
                   link_listening := true |}]) w))
}.

Section BaseWrites.

Context (I : World.t -> Prop) (HB : FramedBase I).

Lemma preserves_modifyState (f : FilesState.t -> FilesState.t) :
  (forall st, FilesState.uploadChain (f st) = FilesState.uploadChain st) ->
  (forall st, FilesState.uploading (f st) = FilesState.uploading st) ->
  preserves I (modifyState f).
Proof. intros Hf Hg w H. apply (framed_state I HB); auto. Qed.

Lemma preserves_send (env : Env) (cmd : S3.Command) : preserves I (send env cmd).
Proof.
  intros w H. unfold send.
  destruct (send_answer env (World.calls w) cmd); apply (framed_calls I HB); exact H.
Qed.

Lemma preserves_notifyError (msg : string) (src : AnalyticsErrorEventSource) :
  preserves I (notifyError msg src).
Proof. intros w H. apply (framed_notifications I HB). exact H. Qed.

End BaseWrites.

Section UploadWrites.

Context (I : World.t -> Prop) (HI : Framed I).

Lemma preserves_mutate ref (f : UploadingBrowserObject -> UploadingBrowserObject) :
  (forall o, type (base (f o)) = type (base o)) -> preserves I (mutate ref f).
Proof. intros Hf w H. now apply (framed_mutate I HI). Qed.

Lemma preserves_abortUpload (l : nat) : preserves I (abortUpload l).
Proof. intros w H. now apply (framed_abort I HI). Qed.

Lemma preserves_setUploading l : preserves I (setUploading l).
Proof. intros w H. now apply (framed_uploading I HI). Qed.

Lemma preserves_pushUploading obj :
  type (base obj) = Some type_file -> preserves I (pushUploading obj).
Proof. intros Hobj w H. now apply (framed_push I HI). Qed.

End UploadWrites.

(** One step of the proof that an operation keeps an invariant: [HB] is
    the proof that the invariant stands the writes of the listings. *)
Ltac preserve_step HB :=
  match goal with
  | H : _ |- preserves _ _ => solve [apply H]
  | |- preserves _ (ret _) => apply preserves_ret
  | |- preserves _ (throw _) => apply preserves_throw
  | |- preserves _ outOfFuel => apply preserves_outOfFuel
  | |- preserves _ get => apply preserves_get
  | |- preserves _ getState => apply preserves_getState
  | |- preserves _ (rethrow _) => apply preserves_rethrow
  | |- preserves _ (send _ _) => apply (preserves_send _ HB)
  | |- preserves _ (notifyError _ _) => apply (preserves_notifyError _ HB)
  | |- preserves _ (modifyState _) =>
      apply (preserves_modifyState _ HB); intros ?; reflexivity
  | |- preserves _ (bind _ _) => apply preserves_bind; [|intros ?]
  | |- preserves _ (catch _) => apply preserves_catch
  | |- preserves _ (forEach _ _) => apply preserves_forEach; intros ?
  | |- preserves _ (let _ := _ in _) => cbv zeta
  | |- preserves _ (match ?x with _ => _ end) => destruct x
  | |- preserves _ (if ?b then _ else _) => destruct b
  end.

Ltac preserve HB := repeat preserve_step HB.

Section FramedListings.

Context (E : Js.Engine) (I : World.t -> Prop) (HB : FramedBase I).





Lemma preserves_assertIsInitialized : preserves I assertIsInitialized.
Proof using All. unfold assertIsInitialized. preserve HB. Qed.

Lemma preserves_updateFiles path files : preserves I (updateFiles path files).
Proof using All. unfold updateFiles. preserve HB. Qed.

Lemma preserves_processFetchedObjects now path Contents CommonPrefixes :
  preserves I (processFetchedObjects E now path Contents CommonPrefixes).
Proof using All. unfold processFetchedObjects. apply preserves_updateFiles. Qed.

Lemma preserves_clearTokens : preserves I clearTokens.
Proof using All. unfold clearTokens. preserve HB. Qed.

Lemma preserves_setToken page token : preserves I (setToken page token).
Proof using All. unfold setToken. preserve HB. Qed.

Lemma preserves_setCursorPage page : preserves I (setCursorPage page).
Proof using All. unfold setCursorPage. preserve HB. Qed.

Lemma preserves_listAllVersions env path page saveNextToken :
  preserves I (listAllVersions E env path page saveNextToken).
Proof using All.
  unfold listAllVersions, updateVersionsExpandedKeys.
  pose proof preserves_assertIsInitialized. pose proof preserves_setCursorPage.
  pose proof preserves_setToken. pose proof preserves_updateFiles.
  preserve HB.
Qed.

Lemma preserves_initList_pages env path pages token iteration keyCount :
  preserves I (initList_pages E env path pages token iteration keyCount).
Proof using All.
  revert token iteration keyCount.
  induction pages as [|pg rest IH]; intros token iteration keyCount; simpl.
  - apply preserves_ret.
  - pose proof preserves_processFetchedObjects. pose proof preserves_setToken.
    apply preserves_bind; [apply preserves_getState|intros st].
    apply preserves_bind; [intros w H'; now apply (framed_calls I HB)|intros _].
    preserve HB.
Qed.

Lemma preserves_initList env path : preserves I (initList E env path).
Proof using All.
  unfold initList.
  pose proof preserves_assertIsInitialized. pose proof preserves_initList_pages.
  preserve HB.
Qed.

Lemma preserves_listByToken env path key tok :
  preserves I (listByToken E env path key tok).
Proof using All.
  unfold listByToken.
  pose proof preserves_assertIsInitialized. pose proof preserves_processFetchedObjects.
  preserve HB.
Qed.

Lemma preserves_listCustom env path page saveNextToken :
  preserves I (listCustom E env path page saveNextToken).
Proof using All.
  unfold listCustom.
  pose proof preserves_assertIsInitialized. pose proof preserves_processFetchedObjects.
  pose proof preserves_setToken. pose proof preserves_setCursorPage.
  preserve HB.
Qed.

Lemma preserves_refresh env : preserves I (refresh E env).
Proof using All.
  unfold refresh.
  pose proof preserves_clearTokens. pose proof preserves_listAllVersions.
  pose proof preserves_listCustom. pose proof preserves_initList.
  preserve HB.
Qed.

Lemma preserves_addFileToBeDeleted files : preserves I (addFileToBeDeleted files).
Proof using All. unfold addFileToBeDeleted. preserve HB. Qed.

Lemma preserves_removeFile file : preserves I (removeFile file).
Proof using All. unfold removeFile. preserve HB. Qed.

End FramedListings.

Section FramedOperations.

Context (E : Js.Engine) (I : World.t -> Prop) (HI : Framed I).

Let HB : FramedBase I := framed_base I HI.

Ltac preserve_all :=
  repeat first
    [ preserve_step HB
    | match goal with
      | |- preserves _ (mutate _ _) =>
          apply (preserves_mutate _ HI); intros ?; reflexivity
      | |- preserves _ (abortUpload _) => apply (preserves_abortUpload _ HI)
      | |- preserves _ (setUploading _) => apply (preserves_setUploading _ HI)
      end ].

Lemma preserves_enqueueUpload env key body : preserves I (enqueueUpload env key body).
Proof.
  unfold enqueueUpload.
  apply preserves_bind; [apply (preserves_assertIsInitialized E I HB)|intros _].
  apply preserves_bind; [apply preserves_get|intros w0].
  destruct (existsb _ _); [apply (preserves_notifyError _ HB)|].
  apply preserves_bind;
    [intros w H; now apply (framed_uploadingModal I HB)|intros _].
  apply preserves_bind;
    [destruct (Js.findIndex _ _); [apply (preserves_setUploading _ HI)|apply preserves_ret]
    |intros _].
  destruct (MAX_UPLOAD_SIZE <? file_size body).
  - now apply (preserves_pushUploading _ HI).
  - intros w H. unfold bind at 1, get at 1. cbv beta iota zeta.
    match goal with
    | |- context [pushUploading ?obj] =>
        exact (framed_link I HI key _ (framed_push I HI obj w eq_refl H))
    end.
Qed.

Lemma preserves_upload env traversal ignoreDuplicate :
  preserves I (upload env traversal ignoreDuplicate).
Proof.
  unfold upload.
  pose proof (preserves_assertIsInitialized E I HB). pose proof preserves_enqueueUpload.
  preserve_all.
Qed.

Lemma preserves_handleUploadError item error :
  preserves I (handleUploadError item error).
Proof. unfold handleUploadError. preserve_all. Qed.

Lemma preserves_cancelUpload key : preserves I (cancelUpload key).
Proof. unfold cancelUpload. preserve_all. Qed.

Lemma preserves_dropUploading key : preserves I (dropUploading key).
Proof. unfold dropUploading. preserve_all. Qed.

Lemma preserves_deleteObject env path file isFolder shouldRefresh :
  preserves I (deleteObject E env path file isFolder shouldRefresh).
Proof.
  unfold deleteObject.
  pose proof (preserves_assertIsInitialized E I HB). pose proof (preserves_addFileToBeDeleted E I HB).
  pose proof preserves_dropUploading. pose proof (preserves_refresh E I HB).
  pose proof (preserves_removeFile E I HB).
  preserve_all.
Qed.

Lemma preserves_deleteObjectWithVersions env path file :
  preserves I (deleteObjectWithVersions env path file).
Proof.
  unfold deleteObjectWithVersions.
  pose proof (preserves_assertIsInitialized E I HB). pose proof preserves_dropUploading.
  pose proof (preserves_removeFile E I HB).
  apply preserves_bind; [assumption|intros _].
  apply preserves_bind; [apply preserves_getState|intros st].
  apply preserves_bind; [apply (preserves_send _ HB)|intros response].
  apply preserves_bind; [|intros _; preserve_all].
  apply preserves_promiseAll, List.Forall_forall. intros task Htask.
  apply in_map_iff in Htask as (v & <- & _). preserve_all.
Qed.

Lemma preserves_threads env shouldRefresh alive stack err :
  preserves I (threads E env shouldRefresh alive stack err).
Proof.
  revert alive err. induction stack as [|f rest IH]; intros alive err; cbn [threads].
  - destruct alive; apply preserves_ret.
  - destruct alive as [|others]; [apply preserves_ret|].
    pose proof preserves_deleteObject. preserve_all.
Qed.

Lemma preserves_deleteFolder_recurse env shouldRefresh fuel filePath :
  preserves I (deleteFolder_recurse E env shouldRefresh fuel filePath).
Proof.
  revert filePath. induction fuel as [|fuel IH]; intros filePath;
    cbn [deleteFolder_recurse].
  - apply preserves_outOfFuel.
  - pose proof (preserves_assertIsInitialized E I HB). pose proof preserves_threads.
    preserve_all.
Qed.

Lemma preserves_deleteFolderWithVersions_recurse env fuel filePath :
  preserves I (deleteFolderWithVersions_recurse E env fuel filePath).
Proof.
  revert filePath. induction fuel as [|fuel IH]; intros filePath;
    cbn [deleteFolderWithVersions_recurse].
  - apply preserves_outOfFuel.
  - pose proof (preserves_assertIsInitialized E I HB). pose proof preserves_threads.
    preserve_all.
Qed.

Lemma preserves_deleteFolder env fuel file path shouldRefresh :
  preserves I (deleteFolder E env fuel file path shouldRefresh).
Proof.
  unfold deleteFolder.
  pose proof (preserves_assertIsInitialized E I HB). pose proof (preserves_addFileToBeDeleted E I HB).
  pose proof preserves_deleteFolder_recurse. pose proof (preserves_removeFile E I HB).
  pose proof (preserves_refresh E I HB).
  preserve_all.
Qed.

Lemma preserves_deleteFolderWithVersions env fuel file path :
  preserves I (deleteFolderWithVersions E env fuel file path).
Proof.
  unfold deleteFolderWithVersions.
  pose proof (preserves_assertIsInitialized E I HB). pose proof (preserves_addFileToBeDeleted E I HB).
  pose proof preserves_deleteFolderWithVersions_recurse. pose proof (preserves_removeFile E I HB).
  preserve_all.
Qed.

Lemma preserves_deleteSelected env fuel withVersions :
  preserves I (deleteSelected E env fuel withVersions).
Proof.
  unfold deleteSelected.
  apply preserves_bind; [apply preserves_getState|intros st].
  apply preserves_bind; [apply (preserves_addFileToBeDeleted E I HB)|intros _].
  apply preserves_promiseAll, List.Forall_forall. intros task Htask.
  apply in_map_iff in Htask as (f & <- & _).
  pose proof preserves_deleteObjectWithVersions. pose proof preserves_deleteObject.
  pose proof preserves_deleteFolderWithVersions. pose proof preserves_deleteFolder.
  preserve_all.
Qed.

Lemma preserves_createFolder env name : preserves I (createFolder E env name).
Proof.
  unfold createFolder, detached.
  pose proof (preserves_assertIsInitialized E I HB). pose proof (preserves_clearTokens E I HB).
  pose proof (preserves_listAllVersions E I HB). pose proof (preserves_listCustom E I HB).
  pose proof (preserves_initList E I HB).
  preserve_all.
Qed.

Lemma preserves_restoreObject env obj : preserves I (restoreObject env obj).
Proof. unfold restoreObject. pose proof (preserves_assertIsInitialized E I HB). preserve_all. Qed.

Lemma preserves_countVersions env objectKey : preserves I (countVersions env objectKey).
Proof. unfold countVersions. pose proof (preserves_assertIsInitialized E I HB). preserve_all. Qed.

Lemma preserves_toggleShowObjectVersions : preserves I toggleShowObjectVersions.
Proof.
  unfold toggleShowObjectVersions, updateVersionsExpandedKeys, updateSelectedFiles.
  pose proof (preserves_clearTokens E I HB). pose proof (preserves_updateFiles E I HB).
  preserve_all.
Qed.

Lemma preserves_setObjectCountOfSelectedBucket count :
  preserves I (setObjectCountOfSelectedBucket count).
Proof.
  unfold setObjectCountOfSelectedBucket.
  apply preserves_bind; [preserve_all|intros _].
  intros w H. now apply (framed_localData I HB).
Qed.

(** Every public operation other than [clear] keeps a framed invariant. *)
Lemma preserves_run_op (op : Op) :
  op <> Op_clear -> preserves I (run_op E op).
Proof.
  intros Hop.
  destruct op; simpl; try congruence;
    unfold init, reinit, setCursor, updateVersionsExpandedKeys, sort,
      updateSelectedFiles, setObjectPathForModal, cacheObjectPreviewURL,
      removeFromObjectPreviewCache, clearUploading;
    first
      [ apply (preserves_initList E I HB) | apply (preserves_listByToken E I HB)
      | apply (preserves_listAllVersions E I HB) | apply (preserves_listCustom E I HB)
      | apply preserves_upload | apply preserves_restoreObject
      | apply preserves_createFolder | apply preserves_deleteObject
      | apply preserves_deleteObjectWithVersions | apply preserves_deleteFolder
      | apply preserves_deleteFolderWithVersions | apply preserves_deleteSelected
      | apply preserves_cancelUpload | apply (preserves_setUploading _ HI)
      | apply preserves_toggleShowObjectVersions
      | apply preserves_setObjectCountOfSelectedBucket
      | apply (preserves_clearTokens E I HB)
      | pose proof preserves_countVersions; preserve_all ].
Qed.

End FramedOperations.

(** ** Upload entries are files *)

(** Every upload entry ever created has [type = 'file']. *)
Definition uploadsAreFiles (w : World.t) : Prop :=
  forall ref o, World.heap w !! ref = Some o -> type (base o) = Some type_file.

Lemma uploadsAreFiles_heap (w w' : World.t) :
  World.heap w' = World.heap w -> uploadsAreFiles w -> uploadsAreFiles w'.
Proof. unfold uploadsAreFiles. intros ->. auto. Qed.

Lemma uploadsAreFiles_framed : Framed uploadsAreFiles.
Proof.
  split; [split|..]; intros; try (eapply uploadsAreFiles_heap; [|eassumption]; reflexivity).
  - (* mutate *)
    unfold mutate, modify. simpl.
    destruct (World.heap w !! ref) as [o0|] eqn:Href; [|assumption].
    intros i o Hi. simpl in Hi.
    apply list_lookup_insert_Some in Hi as [(-> & <- & _)|(_ & Hi)].
    + rewrite H. eauto.
    + eauto.
  - (* push *)
    intros i o Hi. simpl in Hi.
    apply lookup_app_Some in Hi as [Hi|(_ & Hi)]; [eauto|].
    apply list_lookup_singleton_Some in Hi as (_ & <-). assumption.
  - (* abort *)
    unfold abortUpload, modify. simpl.
    destruct (World.links w !! l); [|assumption].
    eapply uploadsAreFiles_heap; [|eassumption]. reflexivity.
Qed.

Lemma preserves_set_phase_heap (I : World.t -> Prop) (l : nat) (ph : Phase) :
  (forall w w', World.heap w' = World.heap w -> I w -> I w') ->
  preserves I (set_phase l ph).
Proof.
  intros HI w H. unfold set_phase, modify. simpl.
  destruct (World.links w !! l); [|assumption].
  eapply HI; [|eassumption]. reflexivity.
Qed.

Lemma preserves_off_heap (I : World.t -> Prop) (l : nat) :
  (forall w w', World.heap w' = World.heap w -> I w -> I w') ->
  preserves I (off l).
Proof.
  intros HI w H. unfold off, modify. simpl.
  destruct (World.links w !! l); [|assumption].
  eapply HI; [|eassumption]. reflexivity.
Qed.

Section UploadsAreFiles.

Context (E : Js.Engine).

Lemma step_uploadsAreFiles (ev : Event) (w w' : World.t) :
  uploadsAreFiles w -> step E ev w = Some w' -> uploadsAreFiles w'.
Proof.
  pose proof uploadsAreFiles_framed as HF.
  pose proof (framed_base _ HF) as HB.
  pose proof (fun l ph => preserves_set_phase_heap _ l ph uploadsAreFiles_heap) as Hph.
  pose proof (fun l => preserves_off_heap _ l uploadsAreFiles_heap) as Hoff.
  intros Hw Hstep. destruct ev as [op|l|l error|l env|l loaded total];
    cbn [step] in Hstep.
  - assert (uploadsAreFiles (run_op E op w).2) as H.
    { destruct op;
        try (apply (preserves_run_op E _ HF); [discriminate|exact Hw]).
      eapply uploadsAreFiles_heap; [|exact Hw]. reflexivity. }
    destruct (run_op E op w) as [[[]| |] w1]; simpl in H;
      [injection Hstep as <-; exact H|injection Hstep as <-; exact H|discriminate].
  - destruct (World.links w !! l) as [lk|]; [|discriminate].
    assert (preserves uploadsAreFiles (link_invoke l (link_key lk))) as Hinv.
    { unfold link_invoke. preserve HB. }
    destruct (link_phase lk); try discriminate.
    destruct (link_prev lk) as [p|].
    + destruct (link_phase <$> World.links w !! p) as [[]|]; try discriminate;
        injection Hstep as <-; first [now apply Hinv|now apply Hph].
    + injection Hstep as <-. now apply Hinv.
  - destruct (link_phase <$> World.links w !! l) as [[|it| | |]|]; try discriminate.
    injection Hstep as <-.
    assert (preserves uploadsAreFiles (link_transferSettled l it error)) as Hs.
    { unfold link_transferSettled.
      pose proof (preserves_handleUploadError _ HF).
      destruct error; preserve HB; apply (preserves_mutate _ HF); reflexivity. }
    now apply Hs.
  - destruct (World.links w !! l) as [lk|]; [|discriminate].
    destruct (link_phase lk); try discriminate. injection Hstep as <-.
    assert (preserves uploadsAreFiles (link_refresh E env l (link_key lk))) as Hs.
    { unfold link_refresh. pose proof (preserves_refresh E _ HB). preserve HB. }
    now apply Hs.
  - destruct (World.links w !! l) as [lk|]; [|discriminate].
    destruct (link_listening lk); [|discriminate]. injection Hstep as <-.
    assert (preserves uploadsAreFiles (progressListener l (link_key lk) loaded total)) as Hs.
    { unfold progressListener. preserve HB. apply (preserves_mutate _ HF). reflexivity. }
    now apply Hs.
Qed.

Lemma run_uploadsAreFiles (evs : list Event) (w w' : World.t) :
  uploadsAreFiles w -> run E evs w = Some w' -> uploadsAreFiles w'.
Proof.
  revert w. induction evs as [|ev evs IH]; intros w Hw Hrun; simpl in Hrun.
  - now injection Hrun as <-.
  - destruct (step E ev w) as [w1|] eqn:Hstep; [|discriminate].
    eapply IH; [|exact Hrun]. eapply step_uploadsAreFiles; eassumption.
Qed.

(** C1 (amended).  In every state reachable from the initial one, each
    entry of [uploading] has [type = 'file']: no folder is ever uploading. *)
Theorem uploading_holds_only_files (cfg : Config) (localCount : option Z) (w : World.t) :
  reachable E cfg localCount w ->
  forall ref o,
    In ref (FilesState.uploading (World.state w)) ->
    World.heap w !! ref = Some o ->
    type (base o) = Some type_file /\ type (base o) <> Some type_folder.
Proof.
  intros (evs & Hrun) ref o _ Ho.
  assert (uploadsAreFiles w) as Hw.
  { eapply run_uploadsAreFiles; [|exact Hrun]. intros i x Hi. discriminate. }
  rewrite (Hw ref o Ho). split; [reflexivity|discriminate].
Qed.

End UploadsAreFiles.

(** A first trace: the client is initialised and one file is dropped. *)
Definition trace_upload : list Event :=
  [Call (Op_init "access" "secret" "bucket" "https://gateway" "/" true);
   Call (Op_upload (env_answering no_output) [(""%string, file_of "big.bin" 1)] false)].

Lemma uploading_holds_only_files_witness :
  exists o,
    World.heap world_uploading !! 0%nat = Some o /\
    type (base o) = Some type_file /\ type (base o) <> Some type_folder.
Proof.
  assert (reachable engine_lt test_config None world_uploading) as Hreach.
  { exists trace_upload. vm_compute. reflexivity. }
  destruct (World.heap world_uploading !! 0%nat) as [o|] eqn:Ho;
    [|vm_compute in Ho; discriminate].
  exists o. split; [reflexivity|].
  apply (uploading_holds_only_files engine_lt test_config None world_uploading Hreach
           0%nat o); [vm_compute; left; reflexivity|exact Ho].
Defined.

(** The folder row [a] of scenario A. *)
Definition folder_a : BrowserObject := prefixToFolder "" (date 1000 1000) "a/".

(** The root of scenario A is listed, then the folder [a] is deleted while
    the backend fails. *)
Definition trace_failed_folder_delete : list Event :=
  [Call (Op_init "access" "secret" "bucket" "https://gateway" "/" true);
   Call (Op_initList (env_bucket scenarioA_bucket) (Some ""%string));
   Call (Op_deleteFolder env_failing 3 folder_a "" true)].

Definition world_failed_folder_delete : World.t :=
  (deleteFolder engine_lt env_failing 3 folder_a "" true
     (initList engine_lt (env_bucket scenarioA_bucket) (Some ""%string) world_ready).2).2.

(** [deleteFolder] marks the folder itself as pending deletion; when its
    listing fails the mark stays, next to the folder row. *)
Lemma folder_pending_deletion :
  reachable engine_lt test_config None world_failed_folder_delete /\
  In folder_a (FilesState.files (World.state world_failed_folder_delete)) /\
  type folder_a = Some type_folder /\
  compositeKey folder_a ∈ FilesState.filesToBeDeleted (World.state world_failed_folder_delete).
Proof.
  split; [exists trace_failed_folder_delete; vm_compute; reflexivity|].
  split; [left; vm_compute; reflexivity|]. split; [reflexivity|].
  assert (bool_decide
            (compositeKey folder_a ∈
             FilesState.filesToBeDeleted (World.state world_failed_folder_delete)) = true)
    as Hb by (vm_compute; reflexivity).
  exact (bool_decide_eq_true_1 _ Hb).
Qed.

(** ** The upload chain *)

(** The callback of a link has been invoked. *)
Definition started (ph : Phase) : bool :=
  match ph with
  | Pending => false
  | Rejected _ s => s
  | _ => true
  end.

















Section ChainSteps.

Context (E : Js.Engine).


End ChainSteps.

Section UploadChain.

Context (E : Js.Engine).




End UploadChain.






(** ** Cancelling an upload *)

Section Cancel.

Context (E : Js.Engine).


End Cancel.

Definition abort_error : Exn := Error "AbortError" "Upload aborted.".

(** A file is dropped, its completion step is waiting for the transfer, and
    the upload is cancelled. *)
Definition trace_before_cancel : list Event :=
  [Call (Op_init "access" "secret" "bucket" "https://gateway" "/" true);
   Call (Op_upload (env_answering no_output) [(""%string, file_of "a.bin" 1)] false);
   LinkInvoked 0].

Definition world_before_cancel : World.t :=
  default (World_new test_config None)
    (run engine_lt trace_before_cancel (World_new test_config None)).

Definition world_cancelled : World.t := (cancelUpload "a.bin" world_before_cancel).2.


(** The trace run to its end: the cancelled entry is still [Cancelled]
    after the abort error, the link is fulfilled, nothing was notified. *)
Example cancel_then_abort :
  match step engine_lt (TransferSettled 0 (Some abort_error)) world_cancelled with
  | Some w =>
      (status <$> World.heap w) = [Cancelled] /\
      (link_aborted <$> World.links w) = [true] /\
      (link_phase <$> World.links w) = [Fulfilled] /\
      World.notifications w = []
  | None => False
  end.
Proof. vm_compute. repeat split; reflexivity. Qed.

(** Cancelled before the completion step begins: the step finds no entry
    to handle and ends at once; [upload.done()] is never awaited. *)
Example cancel_before_invoke :
  match
    run engine_lt
      [Call (Op_init "access" "secret" "bucket" "https://gateway" "/" true);
       Call (Op_upload (env_answering no_output) [(""%string, file_of "a.bin" 1)] false);
       Call (Op_cancelUpload "a.bin");
       LinkInvoked 0]
      (World_new test_config None)
  with
  | Some w =>
      (status <$> World.heap w) = [Cancelled] /\
      (link_phase <$> World.links w) = [Fulfilled] /\
      World.notifications w = []
  | None => False
  end.
Proof. vm_compute. repeat split; reflexivity. Qed.
